(** * Voiceover pipeline: segment rendering, caching, chunking and timeline

    A shallow embedding of [src/chunking.ts], [src/render.ts], [src/outputs.ts],
    [src/ffmpeg.ts] (probeDuration) and [src/utils.ts], followed by the
    properties of the render cache, the chunker and the timeline assembler.

    Conventions of the embedding.
    - A JavaScript [number] holding a duration or the character limit of
      the chunker is an IEEE-754 binary64 value: Rocq's primitive [float].
      Segment indexes are array positions plus one, and string lengths are
      counts: [nat].
    - A JavaScript string is a Rocq [string]; one [ascii] stands for one
      code unit below 256.
    - The file system, the stored cache manifest and the log of synthesis
      calls (each request with its outcome) form the [World] threaded through the asynchronous functions by
      the monad [M]; a rejected promise is the [inl] result.
    - Collaborators outside the repository (the TTS client, the ffprobe
      process, SHA-256, the general number printer of the JavaScript
      runtime) are parameters. *)

From Stdlib Require Import ZArith String Ascii List Bool Lia.
From Stdlib Require Import Floats.PrimFloat Floats.SpecFloat Floats.FloatOps.
From stdpp Require Import base option list gmap strings pretty.

Open Scope string_scope.
Open Scope list_scope.

(* ================================================================== *)
(** * JavaScript strings                                               *)
(* ================================================================== *)

Section Runs.
Context {A : Type} (p : A -> bool).

(** The longest prefix whose elements satisfy [p], and what follows it. *)
Fixpoint take_while (l : list A) : list A :=
    match l with
    | x :: l' => if p x then x :: take_while l' else []
    | [] => []
    end.

Fixpoint drop_while (l : list A) : list A :=
    match l with
    | x :: l' => if p x then drop_while l' else l
    | [] => []
    end.
End Runs.

Module JsString.

Definition chars (s : string) : list ascii := list_ascii_of_string s.
Definition of_chars (l : list ascii) : string := string_of_list_ascii l.

(** [s.padStart(width, c)]. *)
Definition padStart (width : nat) (c : ascii) (s : string) : string :=
    of_chars (replicate (width - String.length s) c) +:+ s.

(** [s.slice(0, n)]. *)
Definition slice0 (n : nat) (s : string) : string :=
    of_chars (take n (chars s)).

(** [parts.join(sep)]. *)
Fixpoint join (sep : string) (parts : list string) : string :=
    match parts with
    | [] => ""
    | [p] => p
    | p :: rest => p +:+ sep +:+ join sep rest
    end.

Definition newline : string := String (ascii_of_nat 10) EmptyString.
Definition dquote : string := String (ascii_of_nat 34) EmptyString.

End JsString.

(* ================================================================== *)
(** * JavaScript numbers                                               *)
(* ================================================================== *)

Module JsNumber.

(** The integer [±m]. *)
Definition signed (s : bool) (m : positive) : Z := cond_Zopp s (Zpos m).

(** Rounds the dyadic rational [m * 2^e] to binary64. *)
Definition of_dyadic (m e : Z) (szero : bool) : float :=
    SF2Prim (binary_normalize prec emax m e szero).

(** [Math.floor(x)]. *)
Definition floor (x : float) : float :=
    match Prim2SF x with
    | S754_finite s m e =>
        if (0 <=? e)%Z then x
        else of_dyadic (Z.shiftr (signed s m) (- e)) 0 s
    | _ => x
    end.

(** [Math.round(x)]: the nearest integer, ties towards plus infinity. *)
Definition round (x : float) : float :=
    match Prim2SF x with
    | S754_finite s m e =>
        if (0 <=? e)%Z then x
        else of_dyadic (Z.shiftr (2 * signed s m + 2 ^ (- e)) (- e + 1)) 0 s
    | _ => x
    end.

(** [x % y]: the exact remainder of the truncating division, with the
    sign of the dividend. *)
Definition rem (x y : float) : float :=
    match Prim2SF x with
    | S754_nan | S754_infinity _ => nan
    | S754_zero _ =>
        match Prim2SF y with
        | S754_nan | S754_zero _ => nan
        | _ => x
        end
    | S754_finite sx mx ex =>
        match Prim2SF y with
        | S754_nan | S754_zero _ => nan
        | S754_infinity _ => x
        | S754_finite _ my ey =>
            let e := Z.min ex ey in
            let X := Z.shiftl (Zpos mx) (ex - e) in
            let Y := Z.shiftl (Zpos my) (ey - e) in
            of_dyadic (cond_Zopp sx (X mod Y)) e sx
        end
    end.

(** [x > 0]. *)
Definition gt0 (x : float) : bool := PrimFloat.ltb 0 x.

(** The order of the integer [n] and the number [x], [None] when [x] is
    NaN.  A comparison of two numbers compares their exact values, and a
    string length (or the sum of two) is an integer below [2^53], which a
    number holds exactly: so the length is kept as the integer it is, and
    [x] is read as [signed s m * 2^e]. *)
Definition compare_int (n : Z) (x : float) : option comparison :=
    match Prim2SF x with
    | S754_nan => None
    | S754_infinity s => Some (if s then Gt else Lt)
    | S754_zero _ => Some (n ?= 0)%Z
    | S754_finite s m e =>
        Some (if (0 <=? e)%Z then (n ?= signed s m * 2 ^ e)%Z
              else (n * 2 ^ (- e) ?= signed s m)%Z)
    end.

(** [n <= x] for a length [n]; false when [x] is NaN. *)
Definition int_le (n : nat) (x : float) : bool :=
    match compare_int (Z.of_nat n) x with
    | Some Lt | Some Eq => true
    | _ => false
    end.

(** [n > x] for a length [n]; false when [x] is NaN. *)
Definition int_gt (n : nat) (x : float) : bool :=
    match compare_int (Z.of_nat n) x with
    | Some Gt => true
    | _ => false
    end.

Section ToString.
    (** [String(x)] for a number that is not an integer below [2^53] in
        magnitude: the shortest-digits printer of the runtime.  (Below
        [2^53] the shortest digits of an integer are all of its digits.) *)
Variable toString_general : float -> string.

    (** [String(x)]. *)
Definition toString (x : float) : string :=
      match Prim2SF x with
      | S754_nan => "NaN"
      | S754_infinity false => "Infinity"
      | S754_infinity true => "-Infinity"
      | S754_zero _ => "0"
      | S754_finite s m e =>
          let n : option Z :=
            if (0 <=? e)%Z then Some (Z.shiftl (Zpos m) e)
            else if (Zpos m mod 2 ^ (- e) =? 0)%Z
                 then Some (Z.shiftr (Zpos m) (- e)) else None in
          match n with
          | Some n =>
              if (n <? 2 ^ 53)%Z
              then (if s then "-" else "") +:+ pretty n
              else toString_general x
          | None => toString_general x
          end
      end.
End ToString.

End JsNumber.

(* ================================================================== *)
(** * utils.ts: formatting helpers                                     *)
(* ================================================================== *)

Section Formatting.
Variable toString_general : float -> string.

Abbreviation Str := (JsNumber.toString toString_general).

(** Zero-pad a number (e.g. 3 -> "003"). *)
Definition zeroPad (n : nat) : string :=
    JsString.padStart 3 "0" (pretty n).

Definition pad2 (x : float) : string := JsString.padStart 2 "0" (Str x).
Definition pad3 (x : float) : string := JsString.padStart 3 "0" (Str x).

(** Format seconds -> YouTube-friendly "M:SS" or "H:MM:SS". *)
Definition youtubeTimestamp (seconds : float) : string :=
    let h := JsNumber.floor (seconds / 3600) in
    let m := JsNumber.floor (JsNumber.rem seconds 3600 / 60) in
    let s := JsNumber.floor (JsNumber.rem seconds 60) in
    if JsNumber.gt0 h then Str h +:+ ":" +:+ pad2 m +:+ ":" +:+ pad2 s
    else Str m +:+ ":" +:+ pad2 s.

(** Format seconds -> SRT timestamp "HH:MM:SS,mmm". *)
Definition srtTimestamp (seconds : float) : string :=
    let h := JsNumber.floor (seconds / 3600) in
    let m := JsNumber.floor (JsNumber.rem seconds 3600 / 60) in
    let s := JsNumber.floor (JsNumber.rem seconds 60) in
    let ms := JsNumber.round (JsNumber.rem seconds 1 * 1000) in
    pad2 h +:+ ":" +:+ pad2 m +:+ ":" +:+ pad2 s +:+ "," +:+ pad3 ms.

End Formatting.

(* ================================================================== *)
(** * Data model                                                       *)
(* ================================================================== *)

(** chunking.ts: [source: 'heading' | 'auto' | 'template']. *)
Inductive SegmentSource := src_heading | src_auto | src_template.

Module Segment.
Record t := mk {
    index : nat;
    title : string;
    slug : string;
    text : string;
    source : SegmentSource;
    hash : string;
  }.
End Segment.

(** chunking.ts: the untitled sections before numbering. *)
Module Section_.
Record t := mk { title : string; text : string }.
End Section_.

Module RawSection.
Record t := mk { title : string; text : string; source : SegmentSource }.
End RawSection.

Inductive ChunkMode := mode_headings | mode_auto.
Inductive TemplateName := youtube | podcast | shortform.

Module ChunkOptions.
Record t := mk {
    mode : ChunkMode;
    maxChars : float;
    language : option string;
    template : option TemplateName;
    templateDir : string;
    voiceId : string;
  }.
End ChunkOptions.

Module RenderOptions.
Record t := mk {
    voiceId : string;
    outputDir : string;
    force : bool;
    mock : bool;
    language : option string;
  }.
End RenderOptions.

Module RenderResult.
Record t := mk {
    segment : Segment.t;
    filePath : string;
    fileName : string;
    cached : bool;
    duration : float;
  }.
(** [result.duration = d]. *)
Definition set_duration (d : float) (r : t) : t :=
    mk (segment r) (filePath r) (fileName r) (cached r) d.
End RenderResult.

(** render.ts: one value of the [CacheManifest] object. *)
Module CacheEntry.
Record t := mk { hash : string; file : string; duration : float }.
End CacheEntry.

Abbreviation CacheManifest := (gmap string CacheEntry.t).

(** api.ts (declarations in dist/api.d.ts). *)
Module TTSRequest.
Record t := mk {
    text : string;
    voice_id : string;
    audio_format : option string;
    language : option string;
  }.
End TTSRequest.

Module TTSResponse.
Record t := mk {
    audio_data : string;
    duration_seconds : float;
    sample_rate : N;
    format : string;
  }.
End TTSResponse.

Module TimelineEntry.
Record t := mk {
    index : nat;
    title : string;
    start_seconds : float;
    duration_seconds : float;
    end_seconds : float;
  }.
End TimelineEntry.

Module TimelineData.
Record t := mk {
    segments : list TimelineEntry.t;
    total_duration_seconds : float;
    has_durations : bool;
  }.
End TimelineData.

(* ================================================================== *)
(** * The world and the monad of asynchronous functions                *)
(* ================================================================== *)

(** What [segments/.cache.json] holds.  [Stored m] is a file whose text
    parses to the manifest [m], an object of entries as [saveCacheManifest]
    writes them; their durations are taken to be finite numbers, which
    JSON prints and reads back unchanged. *)
Inductive ManifestFile :=
  | NoFile
  | Unparseable
  | Stored (m : CacheManifest).

(** [files] maps the path of every other existing file to its contents.
    Audio files are named [*.wav], so they never alias the manifest file.
    Directories are not tracked and writes do not fail. *)
Record World := mkWorld {
  files : gmap string string;
  manifest : ManifestFile;
  tts_log : list (TTSRequest.t * (string + TTSResponse.t));
}.

(** An awaited computation: it may read and change the world, and either
    resolves to a value or rejects with an error (shown as text). *)
Definition M (A : Type) : Type := World -> (string + A) * World.

Definition ret {A} (a : A) : M A := fun w => (inr a, w).
Definition bind {A B} (m : M A) (k : A -> M B) : M B :=
  fun w => match m w with
           | (inr a, w') => k a w'
           | (inl err, w') => (inl err, w')
           end.
Definition throw {A} (err : string) : M A := fun w => (inl err, w).
(** [try { body } catch (err) { handler }]. *)
Definition try_catch {A} (body : M A) (handler : string -> M A) : M A :=
  fun w => match body w with
           | (inl err, w') => handler err w'
           | r => r
           end.

(** [x ← m; k] awaits [m] and continues with [k]. *)
#[global] Instance M_ret : MRet M := @ret.
#[global] Instance M_bind : MBind M := fun A B k m => bind m k.

(** The TTS collaborator.  Its answer may depend on everything that
    happened before the call. *)
Module VoiceAIClient.
Record t := mk {
    respond : World -> TTSRequest.t -> string + TTSResponse.t;
  }.
(** [await client.generateSpeech(request)]. *)
Definition generateSpeech (client : t) (request : TTSRequest.t)
    : M TTSResponse.t :=
    fun w => (respond client w request,
              mkWorld (files w) (manifest w)
                      (tts_log w ++ [(request, respond client w request)])).
End VoiceAIClient.

(* ================================================================== *)
(** * utils.ts: strings, hashing, files                                *)
(* ================================================================== *)

Module Char.
Definition code (c : ascii) : nat := nat_of_ascii c.
Definition between (lo hi : nat) (c : ascii) : bool :=
    (lo <=? code c)%nat && (code c <=? hi)%nat.
Definition has_code (n : nat) (c : ascii) : bool := (code c =? n)%nat.

(** [\s], and what [trim] removes. *)
Definition isSpace (c : ascii) : bool :=
    between 9 13 c || has_code 32 c || has_code 160 c.
(** [.] in a regular expression: anything but a line terminator. *)
Definition isDot (c : ascii) : bool := negb (has_code 10 c || has_code 13 c).
(** [[.!?]]. *)
Definition isTerminal (c : ascii) : bool := has_code 46 c || has_code 33 c || has_code 63 c.
(** [[a-z0-9]]. *)
Definition isSlugChar (c : ascii) : bool := between 97 122 c || between 48 57 c.
Definition isApostrophe (c : ascii) : bool := has_code 39 c.
Definition isDash (c : ascii) : bool := has_code 45 c.
Definition isHash (c : ascii) : bool := has_code 35 c.

Definition toLowerCase (c : ascii) : ascii :=
    if between 65 90 c || (between 192 222 c && negb (has_code 215 c))
    then ascii_of_nat (code c + 32) else c.
End Char.

Module Path.
(** [join(a, b)] of node:path for pieces that need no normalising: [a] a
    directory path as [resolve] returns it (build.ts resolves the output
    directory), [b] a name without separator. *)
Definition join (a b : string) : string := a +:+ "/" +:+ b.
End Path.

(** [s.trim()]. *)
Definition trim (s : string) : string :=
  let l := drop_while Char.isSpace (JsString.chars s) in
  JsString.of_chars (rev (drop_while Char.isSpace (rev l))).

(** Replaces every maximal run of characters in [cls] by [by_]:
    [s.replace(/[cls]+/g, by_)]. *)
Fixpoint replace_runs (cls : ascii -> bool) (by_ : list ascii)
    (in_run : bool) (s : list ascii) : list ascii :=
  match s with
  | [] => []
  | c :: s' =>
      if cls c then (if in_run then [] else by_) ++ replace_runs cls by_ true s'
      else c :: replace_runs cls by_ false s'
  end.

(** Slugify a string for safe filenames and directory names. *)
Definition slugify (text : string) : string :=
  let s := map Char.toLowerCase (JsString.chars text) in
  let s := filter (fun c => negb (Char.isApostrophe c)) s in
  let s := replace_runs (fun c => negb (Char.isSlugChar c)) (JsString.chars "-") false s in
  let s := rev (drop_while Char.isDash (rev (drop_while Char.isDash s))) in
  JsString.slice0 60 (JsString.of_chars s).

Section Hashing.
(** [createHash('sha256') ... digest('hex')] of node:crypto, applied to
    the concatenation of the updates. *)
Variable sha256_hex : string -> string.

(** SHA-256 content hash (first 16 hex chars). *)
Definition contentHash (parts : list string) : string :=
    JsString.slice0 16 (sha256_hex (fold_left String.append parts "")).
End Hashing.

(** Create directory (recursive). *)
Definition ensureDir (dirPath : string) : M unit := ret tt.

(** Write file, creating parent directories as needed. *)
Definition writeOutputFile (filePath content : string) : M unit :=
  fun w => (inr tt, mkWorld (<[filePath := content]> (files w)) (manifest w) (tts_log w)).

(** Check if a path exists. *)
Definition fileExists (filePath : string) : M bool :=
  fun w => (inr (bool_decide (is_Some (files w !! filePath))), w).

(** Read a file as text ([readFile(path, 'utf-8')]); reading a missing
    file rejects. *)
Definition readFile (filePath : string) : M string :=
  fun w => match files w !! filePath with
           | Some content => (inr content, w)
           | None => (inl ("ENOENT: no such file or directory, open '" +:+ filePath +:+ "'"), w)
           end.

(** A JavaScript string in a condition: true unless empty. *)
Definition truthy (s : string) : bool := negb (String.length s =? 0)%nat.

(* ================================================================== *)
(** * The regular expressions of chunking.ts                           *)
(* ================================================================== *)

(** The patterns of the source are sequences of character classes, each
    taken once, one or more times ([+]) or zero or more times ([*]),
    greedily and with backtracking. *)
Module Regex.
Inductive quant := One | Plus | Star.
Record item := mk { cls : ascii -> bool; q : quant }.

(** The first result among [f hi], [f (hi - 1)], ..., [f lo]. *)
Fixpoint first_down {A} (f : nat -> option A) (lo hi : nat) : option A :=
    if (hi <? lo)%nat then None
    else match f hi with
         | Some r => Some r
         | None => match hi with
                   | 0 => None
                   | S hi' => first_down f lo hi'
                   end
         end.

(** Matches the items at the start of [s]; [to_end] is a final [$].
    Gives the text taken by each item and the unmatched rest. *)
Fixpoint match_here (its : list item) (to_end : bool) (s : list ascii)
    : option (list (list ascii) * list ascii) :=
    match its with
    | [] => if to_end
            then match s with [] => Some ([], []) | _ :: _ => None end
            else Some ([], s)
    | it :: its' =>
        let n := length (take_while (cls it) s) in
        let '(lo, hi) := match q it with
                         | One => (1, Nat.min 1 n)
                         | Plus => (1, n)
                         | Star => (0, n)
                         end in
        first_down
          (fun k => match match_here its' to_end (drop k s) with
                    | Some (groups, rest) => Some (take k s :: groups, rest)
                    | None => None
                    end) lo hi
    end.

(** [s.match(/its/g)]: the successive matches from left to right.  A
    failed position is skipped by one character.  (None of the patterns
    used matches the empty string.) *)
Fixpoint match_all (fuel : nat) (its : list item) (s : list ascii)
    : list (list ascii) :=
    match fuel, s with
    | S fuel', _ :: s' =>
        match match_here its false s with
        | Some (groups, rest) =>
            concat groups ::
              match_all fuel' its (if (length rest <? length s)%nat then rest else s')
        | None => match_all fuel' its s'
        end
    | _, _ => []
    end.

Definition lit (p : ascii -> bool) : item := mk p One.

(** [/^##\s+(.+)$/]: group 1 is the fourth item. *)
Definition h2 : list item :=
    [lit Char.isHash; lit Char.isHash; mk Char.isSpace Plus; mk Char.isDot Plus].
(** [/^#\s+(.+)$/]: group 1 is the third item. *)
Definition h1 : list item :=
    [lit Char.isHash; mk Char.isSpace Plus; mk Char.isDot Plus].
(** [/[^.!?]+[.!?]+[\s]*/g]. *)
Definition sentence : list item :=
    [mk (fun c => negb (Char.isTerminal c)) Plus; mk Char.isTerminal Plus;
     mk Char.isSpace Star].

(** [line.match(/^...$/)] followed by [[1]]: the captured group. *)
Definition capture (its : list item) (group : nat) (line : string)
    : option string :=
    match match_here its true (JsString.chars line) with
    | Some (groups, _) => JsString.of_chars <$> groups !! group
    | None => None
    end.
End Regex.

(* ================================================================== *)
(** * chunking.ts                                                      *)
(* ================================================================== *)

(** [content.split('\n')]. *)
Fixpoint split_lines_go (cur : list ascii) (s : list ascii) : list string :=
  match s with
  | [] => [JsString.of_chars (rev cur)]
  | c :: s' =>
      if Char.has_code 10 c
      then JsString.of_chars (rev cur) :: split_lines_go [] s'
      else split_lines_go (c :: cur) s'
  end.
Definition split_lines (content : string) : list string :=
  split_lines_go [] (JsString.chars content).

Module Headings.
(** The variables of the loop of [parseMarkdownHeadings]. *)
Record state := mk {
    sections : list Section_.t;
    currentTitle : string;
    currentLines : list string;
    h1Title : string;
  }.

(** [if (currentTitle || currentLines.some((l) => l.trim())) sections.push(...)]. *)
Definition push_section (st : state) : list Section_.t :=
    if truthy (currentTitle st) || existsb (fun l => truthy (trim l)) (currentLines st)
    then
      let fallbackTitle := if truthy (h1Title st) then h1Title st else "Preamble" in
      sections st ++
        [Section_.mk (if truthy (currentTitle st) then currentTitle st else fallbackTitle)
                     (trim (JsString.join JsString.newline (currentLines st)))]
    else sections st.

Definition step (st : state) (line : string) : state :=
    match Regex.capture Regex.h2 3 line with
    | Some g => mk (push_section st) (trim g) [] (h1Title st)
    | None =>
        match Regex.capture Regex.h1 2 line with
        | Some g =>
            if negb (truthy (currentTitle st)) && (length (sections st) =? 0)%nat
            then mk (sections st) (currentTitle st) (currentLines st) (trim g)
            else mk (sections st) (currentTitle st) (currentLines st ++ [line]) (h1Title st)
        | None => mk (sections st) (currentTitle st) (currentLines st ++ [line]) (h1Title st)
        end
    end.
End Headings.

(** Split markdown by ## headings into segments. *)
Definition parseMarkdownHeadings (content : string) : list Section_.t :=
  let lines := split_lines content in
  let st := fold_left Headings.step lines (Headings.mk [] "" [] "") in
  filter (fun s => (0 <? String.length (Section_.text s))%nat)
         (Headings.push_section st).

Module AutoChunk.
(** The variables of the loop of [autoChunk]. *)
Record state := mk {
    chunks : list Section_.t;
    current : string;
    chunkNum : nat;
  }.

Definition segment_title (chunkNum : nat) : string := "Segment " +:+ pretty chunkNum.

Definition step (maxChars : float) (st : state) (sentence : string) : state :=
    let st :=
      if JsNumber.int_gt (String.length (current st) + String.length sentence) maxChars
         && (0 <? String.length (current st))%nat
      then mk (chunks st ++ [Section_.mk (segment_title (chunkNum st)) (trim (current st))])
              "" (chunkNum st + 1)
      else st in
    mk (chunks st) (current st +:+ sentence) (chunkNum st).
End AutoChunk.

(** Split text into chunks of ~maxChars, respecting sentence boundaries. *)
Definition autoChunk (content : string) (maxChars : float) : list Section_.t :=
  let text := trim content in
  if JsNumber.int_le (String.length text) maxChars
  then [Section_.mk "Segment 1" text]
  else
    let sentences :=
      match Regex.match_all (S (String.length text)) Regex.sentence (JsString.chars text) with
      | [] => [text]
      | ms => map JsString.of_chars ms
      end in
    let st := fold_left (AutoChunk.step maxChars) sentences (AutoChunk.mk [] "" 1) in
    if truthy (trim (AutoChunk.current st))
    then AutoChunk.chunks st ++
         [Section_.mk (AutoChunk.segment_title (AutoChunk.chunkNum st))
                      (trim (AutoChunk.current st))]
    else AutoChunk.chunks st.

(** [TEMPLATE_MAP]: the intro and outro file of each template. *)
Definition TEMPLATE_MAP (t : TemplateName) : option string * option string :=
  match t with
  | youtube => (Some "youtube_intro.txt", Some "youtube_outro.txt")
  | podcast => (Some "podcast_intro.txt", None)
  | shortform => (Some "shortform_hook.txt", None)
  end.

Definition loadTemplate (templateDir filename : string) : M (option string) :=
  let filePath := Path.join templateDir filename in
  ex ← fileExists filePath;
  if ex : bool then content ← readFile filePath; mret (Some (trim content))
  else mret None.

Definition with_source (src : SegmentSource) (s : Section_.t) : RawSection.t :=
  RawSection.mk (Section_.title s) (Section_.text s) src.

(** [chunkScript], step 2: a template file that is found and not empty
    gives one more section. *)
Definition templateSection (templateDir : string) (file : option string)
    (title : string) : M (list RawSection.t) :=
  match file with
  | Some f =>
      t ← loadTemplate templateDir f;
      mret (match t with
            | Some txt => if truthy txt then [RawSection.mk title txt src_template] else []
            | None => []
            end)
  | None => mret []
  end.

Section ChunkScript.
Variable sha256_hex : string -> string.

(** Full chunking pipeline: parse, chunk, apply templates, number and hash. *)
Definition chunkScript (content : string) (options : ChunkOptions.t)
    : M (list Segment.t) :=
    (* 1. Parse into raw sections *)
    let auto_sections :=
      map (with_source src_auto) (autoChunk content (ChunkOptions.maxChars options)) in
    let rawSections :=
      match ChunkOptions.mode options with
      | mode_headings =>
          let headingSections := parseMarkdownHeadings content in
          let hasRealHeadings :=
            existsb (fun s => negb (String.eqb (Section_.title s) "Preamble")
                              && negb (String.eqb (Section_.title s) "Untitled Section"))
                    headingSections in
          if hasRealHeadings && (0 <? length headingSections)%nat
          then map (with_source src_heading) headingSections
          else auto_sections
      | mode_auto => auto_sections
      end in
    (* 2. Apply template intro/outro *)
    rawSections ←
      match ChunkOptions.template options with
      | Some t =>
          let tmpl := TEMPLATE_MAP t in
          intro ← templateSection (ChunkOptions.templateDir options) (fst tmpl) "Intro";
          outro ← templateSection (ChunkOptions.templateDir options) (snd tmpl) "Outro";
          mret (intro ++ rawSections ++ outro)
      | None => mret rawSections
      end;
    (* 3. Number, slug, and hash each segment *)
    mret (imap (fun i section =>
                  Segment.mk (i + 1)
                    (RawSection.title section)
                    (slugify (RawSection.title section))
                    (RawSection.text section)
                    (RawSection.source section)
                    (contentHash sha256_hex
                       [RawSection.text section; ChunkOptions.voiceId options;
                        default "en" (ChunkOptions.language options)]))
               rawSections).
End ChunkScript.

(* ================================================================== *)
(** * ffmpeg.ts (probeDuration) and render.ts                          *)
(* ================================================================== *)

Section Render.
(** Running ffprobe on a file and reading [format.duration] of its JSON
    output with [parseFloat]; [None] when the process or the parsing
    throws.  The answer may depend on the whole world. *)
Variable ffprobe : World -> string -> option float.

Definition probeDuration (filePath : string) : M (option float) :=
    fun w => (inr (match ffprobe w filePath with
                   | Some dur => if is_nan dur then None else Some dur
                   | None => None
                   end), w).

(** ** Cache management *)

Definition cacheManifestPath (outputDir : string) : string :=
    Path.join (Path.join outputDir "segments") ".cache.json".

Definition loadCacheManifest (outputDir : string) : M CacheManifest :=
    fun w => (inr (match manifest w with
                   | Stored m => m
                   | Unparseable => ∅
                   | NoFile => ∅
                   end), w).

Definition saveCacheManifest (outputDir : string) (m : CacheManifest) : M unit :=
    fun w => (inr tt, mkWorld (files w) (Stored m) (tts_log w)).

(** ** Segment rendering *)

Definition segmentFileName (segment : Segment.t) : string :=
    zeroPad (Segment.index segment) +:+ "-" +:+
    (if truthy (Segment.slug segment) then Segment.slug segment
     else slugify (Segment.title segment)) +:+ ".wav".

Definition segmentCacheKey (segment : Segment.t) : string :=
    zeroPad (Segment.index segment) +:+ "-" +:+ Segment.slug segment.

(** The body of the first loop of [renderSegments]: is the segment in
    the cache, with its file still on disk? *)
Definition checkCache (options : RenderOptions.t) (segDir : string)
      (cache : CacheManifest) (segment : Segment.t) : M RenderResult.t :=
    let key := segmentCacheKey segment in
    let fileName := segmentFileName segment in
    let filePath := Path.join segDir fileName in
    let currentHash := Segment.hash segment in
    let miss := RenderResult.mk segment filePath fileName false 0 in
    match cache !! key with
    | Some entry =>
        if negb (RenderOptions.force options)
           && String.eqb (CacheEntry.hash entry) currentHash
           && String.eqb (CacheEntry.file entry) fileName
        then
          ex ← fileExists filePath;
          mret (if ex : bool
                then RenderResult.mk segment filePath fileName true
                       (CacheEntry.duration entry)
                else miss)
        else mret miss
    | None => mret miss
    end.

(** The first loop: one result per segment, in order, with the two
    counters it prints. *)
Fixpoint checkAll (options : RenderOptions.t) (segDir : string)
      (cache : CacheManifest) (segments : list Segment.t)
      (results : list RenderResult.t) (cachedCount newCount : nat)
    : M (list RenderResult.t * nat * nat) :=
    match segments with
    | [] => mret (results, cachedCount, newCount)
    | segment :: rest =>
        r ← checkCache options segDir cache segment;
        if RenderResult.cached r
        then checkAll options segDir cache rest (results ++ [r]) (cachedCount + 1) newCount
        else checkAll options segDir cache rest (results ++ [r]) cachedCount (newCount + 1)
    end.

Definition failure_message (title err : string) : string :=
    "Failed to render segment " +:+ JsString.dquote +:+ title +:+ JsString.dquote
    +:+ ": " +:+ err.

Definition request_of (options : RenderOptions.t) (segment : Segment.t)
    : TTSRequest.t :=
    TTSRequest.mk (Segment.text segment) (RenderOptions.voiceId options)
                  (Some "wav") (RenderOptions.language options).

(** The [try] block of the second loop for one result that is not
    cached: synthesize, write the audio file, probe its duration and
    record the cache entry. *)
Definition renderOne (client : VoiceAIClient.t) (options : RenderOptions.t)
      (result : RenderResult.t) (updatedCache : CacheManifest)
    : M (RenderResult.t * CacheManifest) :=
    let segment := RenderResult.segment result in
    try_catch
      (ttsResponse ← VoiceAIClient.generateSpeech client (request_of options segment);
       _ ← writeOutputFile (RenderResult.filePath result)
                           (TTSResponse.audio_data ttsResponse);
       (* Get accurate duration from ffprobe if available, else use API estimate *)
       probed ← probeDuration (RenderResult.filePath result);
       let result :=
         RenderResult.set_duration
           (default (TTSResponse.duration_seconds ttsResponse) probed) result in
       (* Update cache *)
       let updatedCache :=
         <[segmentCacheKey segment :=
             CacheEntry.mk (Segment.hash segment) (RenderResult.fileName result)
                           (TTSResponse.duration_seconds ttsResponse)]> updatedCache in
       mret (result, updatedCache))
      (fun err => throw (failure_message (Segment.title segment) err)).

(** The second loop: renders the results that are not cached, in order. *)
Fixpoint renderNew (client : VoiceAIClient.t) (options : RenderOptions.t)
      (results : list RenderResult.t) (updatedCache : CacheManifest)
    : M (list RenderResult.t * CacheManifest) :=
    match results with
    | [] => mret ([], updatedCache)
    | result :: rest =>
        if RenderResult.cached result
        then
          '(rest', updatedCache) ← renderNew client options rest updatedCache;
          mret (result :: rest', updatedCache)
        else
          '(result', updatedCache) ← renderOne client options result updatedCache;
          '(rest', updatedCache) ← renderNew client options rest updatedCache;
          mret (result' :: rest', updatedCache)
    end.

Definition renderSegments (segments : list Segment.t)
      (client : VoiceAIClient.t) (options : RenderOptions.t)
    : M (list RenderResult.t) :=
    let segDir := Path.join (RenderOptions.outputDir options) "segments" in
    _ ← ensureDir segDir;
    (* Load cache *)
    cache ← (if RenderOptions.force options then mret ∅
             else loadCacheManifest (RenderOptions.outputDir options));
    (* Determine what needs rendering *)
    '(results, cachedCount, newCount) ← checkAll options segDir cache segments [] 0 0;
    (* Render new segments *)
    '(results, updatedCache) ← renderNew client options results cache;
    (* Save updated cache *)
    _ ← saveCacheManifest (RenderOptions.outputDir options) updatedCache;
    mret results.

End Render.

(* ================================================================== *)
(** * outputs.ts: timeline, chapters, captions                         *)
(* ================================================================== *)

(** The callback of [results.map] in [buildTimeline], with the variable
    [cursor] it advances. *)
Definition timelineStep (acc : list TimelineEntry.t * float) (r : RenderResult.t)
  : list TimelineEntry.t * float :=
  let '(entries, cursor) := acc in
  let entry :=
    TimelineEntry.mk (Segment.index (RenderResult.segment r))
                     (Segment.title (RenderResult.segment r))
                     cursor
                     (RenderResult.duration r)
                     (cursor + RenderResult.duration r)%float in
  (entries ++ [entry], (cursor + RenderResult.duration r)%float).

Definition buildTimeline (results : list RenderResult.t) : TimelineData.t :=
  let hasDurations := forallb (fun r => JsNumber.gt0 (RenderResult.duration r)) results in
  let '(segments, cursor) := fold_left timelineStep results ([], 0%float) in
  TimelineData.mk segments cursor hasDurations.

Section Outputs.
Variable toString_general : float -> string.

Definition buildChapters (timeline : TimelineData.t) : option string :=
    if negb (TimelineData.has_durations timeline) then None
    else
      let lines :=
        map (fun s => youtubeTimestamp toString_general (TimelineEntry.start_seconds s)
                      +:+ " " +:+ TimelineEntry.title s)
            (TimelineData.segments timeline) in
      Some (JsString.join JsString.newline lines).

Definition buildCaptionsSrt (timeline : TimelineData.t) (segments : list Segment.t)
    : option string :=
    if negb (TimelineData.has_durations timeline) then None
    else
      let blocks :=
        imap (fun i t =>
                let segText := default "" (Segment.text <$> segments !! i) in
                (* Truncate very long segments to a summary line for caption blocks *)
                let captionText :=
                  if (200 <? String.length segText)%nat
                  then JsString.slice0 197 segText +:+ "..." else segText in
                pretty (i + 1) +:+ JsString.newline
                +:+ srtTimestamp toString_general (TimelineEntry.start_seconds t)
                +:+ " --> "
                +:+ srtTimestamp toString_general (TimelineEntry.end_seconds t)
                +:+ JsString.newline +:+ captionText)
             (TimelineData.segments timeline) in
      Some (JsString.join (JsString.newline +:+ JsString.newline) blocks).
End Outputs.

(* ================================================================== *)
(** * Vocabulary of the cache properties                               *)
(* ================================================================== *)

(** The manifest that [loadCacheManifest] finds in a world. *)
Definition on_disk (w : World) : CacheManifest :=
  match manifest w with
  | Stored m => m
  | Unparseable | NoFile => ∅
  end.

Definition segmentFilePath (options : RenderOptions.t) (s : Segment.t) : string :=
  Path.join (Path.join (RenderOptions.outputDir options) "segments") (segmentFileName s).

(** The conditions of a cache hit, as the specification words them: not
    forced, an entry under the segment's key, with the segment's hash and
    file name, and the file on disk. *)
Definition CacheHit (options : RenderOptions.t) (stored : CacheManifest)
    (w : World) (s : Segment.t) : Prop :=
  RenderOptions.force options = false
  /\ exists entry, stored !! segmentCacheKey s = Some entry
       /\ CacheEntry.hash entry = Segment.hash s
       /\ CacheEntry.file entry = segmentFileName s
       /\ is_Some (files w !! segmentFilePath options s).

(** What the first loop of [renderSegments] decides for a segment. *)
Record Planned (options : RenderOptions.t) (cache : CacheManifest) (w : World)
    (s : Segment.t) (r : RenderResult.t) : Prop := {
  planned_segment : RenderResult.segment r = s;
  planned_fileName : RenderResult.fileName r = segmentFileName s;
  planned_filePath : RenderResult.filePath r = segmentFilePath options s;
  planned_cached : RenderResult.cached r = true <-> CacheHit options cache w s;
  planned_hit :
    RenderResult.cached r = true ->
    exists entry, cache !! segmentCacheKey s = Some entry
      /\ RenderResult.duration r = CacheEntry.duration entry;
  planned_miss : RenderResult.cached r = false -> RenderResult.duration r = 0%float;
}.

Definition is_miss (r : RenderResult.t) : bool := negb (RenderResult.cached r).

(** A logged synthesis call that resolved. *)
Definition is_inr {A B} (x : A + B) : Prop :=
  match x with inr _ => True | inl _ => False end.

(** The synthesis requests a pass issues for a list of results. *)
Definition requests_for (options : RenderOptions.t) (results : list RenderResult.t)
  : list TTSRequest.t :=
  map (fun r => request_of options (RenderResult.segment r)) (filter is_miss results).

(** Segments that share a cache key agree on hash and file name; so do,
    in particular, segments with pairwise distinct keys. *)
Definition key_coherent (segments : list Segment.t) : Prop :=
  forall s1 s2, s1 ∈ segments -> s2 ∈ segments ->
    segmentCacheKey s1 = segmentCacheKey s2 ->
    Segment.hash s1 = Segment.hash s2 /\ segmentFileName s1 = segmentFileName s2.

(** The invariant of the segments of a script: indexes are positive and
    pairwise distinct (the segmenter numbers them 1, 2, ... in order). *)
Definition well_indexed (segments : list Segment.t) : Prop :=
  Forall (fun s => 0 < Segment.index s) segments
  /\ NoDup (map Segment.index segments).

(** The first character of a string, if any. *)
Definition head_char (s : string) : option ascii :=
  match s with
  | EmptyString => None
  | String c _ => Some c
  end.

Definition dashless (s : string) : Prop :=
  Forall (fun c => c <> "-"%char) (JsString.chars s).

(** The first-loop cache of a pass. *)
Definition initial_cache (options : RenderOptions.t) (w : World) : CacheManifest :=
  if RenderOptions.force options then ∅ else on_disk w.

(** What the second loop keeps of a planned result. *)
Definition same_plan (r r' : RenderResult.t) : Prop :=
  RenderResult.segment r' = RenderResult.segment r
  /\ RenderResult.fileName r' = RenderResult.fileName r
  /\ RenderResult.filePath r' = RenderResult.filePath r
  /\ RenderResult.cached r' = RenderResult.cached r
  /\ (RenderResult.cached r = true -> r' = r).

(** The world after a successful synthesis call and the write of its
    audio file. *)
Definition after_synthesis (w : World) (request : TTSRequest.t)
    (filePath : string) (response : TTSResponse.t) : World :=
  mkWorld (<[filePath := TTSResponse.audio_data response]> (files w))
          (manifest w) (tts_log w ++ [(request, inr response)]).

Definition new_entry (r : RenderResult.t) (response : TTSResponse.t) : CacheEntry.t :=
  CacheEntry.mk (Segment.hash (RenderResult.segment r)) (RenderResult.fileName r)
                (TTSResponse.duration_seconds response).

(* ================================================================== *)
(** * Sample data                                                      *)
(* ================================================================== *)

Definition sample_segment (i : nat) (title : string) : Segment.t :=
  Segment.mk i title (slugify title) "Some words." src_heading "0123456789abcdef".

Definition sample_result (i : nat) (title : string) (d : float) : RenderResult.t :=
  RenderResult.mk (sample_segment i title) "out/segments/f.wav" "f.wav" false d.

(** A client in mock mode: every call resolves with three seconds of audio. *)
Definition mock_client : VoiceAIClient.t :=
  VoiceAIClient.mk (fun _ _ => inr (TTSResponse.mk "RIFF" 3.0 24000 "wav")).

(** A client whose provider rejects the text "The body.". *)
Definition flaky_client : VoiceAIClient.t :=
  VoiceAIClient.mk (fun _ request =>
    if String.eqb (TTSRequest.text request) "The body."
    then inl "Error: Rate limited (429)"
    else inr (TTSResponse.mk "RIFF" 3.0 24000 "wav")).

(** ffprobe is not installed. *)
Definition no_ffprobe : World -> string -> option float := fun _ _ => None.
(** ffprobe measures 2.5 seconds. *)
Definition ffprobe_2_5 : World -> string -> option float := fun _ _ => Some 2.5%float.

Definition opts (force : bool) : RenderOptions.t :=
  RenderOptions.mk "voice-a" "out" force true None.

Definition seg_intro : Segment.t :=
  Segment.mk 1 "Intro" "intro" "Hello there." src_heading "aaaaaaaaaaaaaaaa".
Definition seg_body : Segment.t :=
  Segment.mk 2 "Body" "body" "The body." src_heading "bbbbbbbbbbbbbbbb".
Definition seg_outro : Segment.t :=
  Segment.mk 3 "Outro" "outro" "Goodbye." src_heading "cccccccccccccccc".
(** A second segment numbered 1 with the slug of [seg_intro] and another text. *)
Definition seg_intro_bis : Segment.t :=
  Segment.mk 1 "Intro" "intro" "Hello again." src_heading "dddddddddddddddd".

Definition empty_world : World := mkWorld ∅ NoFile [].

(** An output directory where [seg_intro] was rendered before, and which
    still knows a segment that left the script. *)
Definition warm_world : World :=
  mkWorld {[ "out/segments/001-intro.wav" := "RIFF" ]}
          (Stored {[ "001-intro" := CacheEntry.mk "aaaaaaaaaaaaaaaa" "001-intro.wav" 1.5;
                     "009-old" := CacheEntry.mk "eeeeeeeeeeeeeeee" "009-old.wav" 4 ]})
          [].

Definition h1_only_document : string :=
  "# My Video" +:+ JsString.newline +:+ "First sentence here. Second sentence here.".

(* ================================================================== *)
(** * outputs.ts: manifest and HTML escaping                           *)
(* ================================================================== *)

Module ManifestSegment.
Record t := mk {
    index : nat;
    title : string;
    source_text : string;
    text_hash : string;
    file_path : string;
    duration_seconds : float;
  }.
End ManifestSegment.

Module ManifestData.
Record t := mk {
    title : string;
    voice_id : string;
    voice_name : option string;
    template : option string;
    language : string;
    mock : bool;
    segments : list ManifestSegment.t;
    created_at : string;
    total_duration_seconds : float;
  }.
End ManifestData.

(** [buildManifest]; [now] is [new Date().toISOString()]. *)
Definition buildManifest (now : string) (title voiceId : string)
    (voiceName template : option string) (language : string) (mock : bool)
    (results : list RenderResult.t) : ManifestData.t :=
  let totalDuration :=
    fold_left (fun s r => (s + RenderResult.duration r)%float) results 0%float in
  ManifestData.mk title voiceId voiceName template language mock
    (map (fun r =>
            ManifestSegment.mk
              (Segment.index (RenderResult.segment r))
              (Segment.title (RenderResult.segment r))
              (Segment.text (RenderResult.segment r))
              (Segment.hash (RenderResult.segment r))
              (RenderResult.fileName r)
              (RenderResult.duration r))
         results)
    now totalDuration.

(** [s.replace(/c/g, by_)] for a single character [c]. *)
Definition replace_char (c : ascii) (by_ : string) (s : list ascii) : list ascii :=
  concat (map (fun x => if Ascii.eqb x c then JsString.chars by_ else [x]) s).

Definition amp : ascii := ascii_of_nat 38.
Definition lt_sign : ascii := ascii_of_nat 60.
Definition gt_sign : ascii := ascii_of_nat 62.
Definition dquote_char : ascii := ascii_of_nat 34.

Definition escapeHtml (text : string) : string :=
  JsString.of_chars
    (replace_char dquote_char "&quot;"
       (replace_char gt_sign "&gt;"
          (replace_char lt_sign "&lt;"
             (replace_char amp "&amp;" (JsString.chars text))))).

(* ================================================================== *)
(** * ffmpeg.ts: the arguments of the mux command                      *)
(* ================================================================== *)

Inductive SyncPolicy := sync_shortest | sync_pad | sync_trim.

Module MuxOptions.
Record t := mk {
    videoPath : string;
    audioPath : string;
    outputPath : string;
    syncPolicy : SyncPolicy;
  }.
End MuxOptions.

Definition buildMuxArgs (opts : MuxOptions.t) : list string :=
  let args := ["-y"; "-i"; MuxOptions.videoPath opts; "-i"; MuxOptions.audioPath opts] in
  let args :=
    match MuxOptions.syncPolicy opts with
    | sync_shortest =>
        args ++ ["-c:v"; "copy"; "-c:a"; "aac"; "-b:a"; "192k"; "-map"; "0:v:0";
                 "-map"; "1:a:0"; "-shortest"]
    | sync_pad =>
        (* Pad audio with silence to match video: we add an apad filter *)
        args ++ ["-c:v"; "copy"; "-c:a"; "aac"; "-b:a"; "192k"; "-map"; "0:v:0";
                 "-map"; "1:a:0"; "-af"; "apad"; "-shortest"]
    | sync_trim =>
        (* Trim audio to video duration: shortest does this naturally *)
        args ++ ["-c:v"; "copy"; "-c:a"; "aac"; "-b:a"; "192k"; "-map"; "0:v:0";
                 "-map"; "1:a:0"; "-shortest"]
    end in
  args ++ [MuxOptions.outputPath opts].

(* ================================================================== *)
(** * Vocabulary of the output properties                              *)
(* ================================================================== *)

(** Entries that follow one another without gap from [start] to
    [finish]: each begins where the one before ended and ends its own
    duration later. *)
Inductive contiguous : float -> list TimelineEntry.t -> float -> Prop :=
  | contiguous_nil cursor : contiguous cursor [] cursor
  | contiguous_cons cursor e es finish :
      TimelineEntry.start_seconds e = cursor ->
      TimelineEntry.end_seconds e = (cursor + TimelineEntry.duration_seconds e)%float ->
      contiguous (TimelineEntry.end_seconds e) es finish ->
      contiguous cursor (e :: es) finish.

(** A timeline entry that copies index, title and duration of a result. *)
Definition entry_of (r : RenderResult.t) (e : TimelineEntry.t) : Prop :=
  TimelineEntry.index e = Segment.index (RenderResult.segment r)
  /\ TimelineEntry.title e = Segment.title (RenderResult.segment r)
  /\ TimelineEntry.duration_seconds e = RenderResult.duration r.

(** The characters of a slug. *)
Definition slug_char (c : ascii) : bool := Char.isSlugChar c || Char.isDash c.

(** The characters of an audio file name: those of a slug, and the dot. *)
Definition file_name_char (c : ascii) : bool := slug_char c || Char.has_code 46 c.

(* ================================================================== *)
(** * Vocabulary of the further properties                             *)
(* ================================================================== *)

(** A world whose manifest file is missing or does not parse. *)
Definition cold (w : World) : Prop :=
  manifest w = NoFile \/ manifest w = Unparseable.

(** The world once the audio of the rendered results [steps], each with
    the response it got, was synthesized and written, in order: every call
    is logged and every file holds its audio. *)
Definition world_after (options : RenderOptions.t) (w : World)
    (steps : list (RenderResult.t * TTSResponse.t)) : World :=
  fold_left (fun w step =>
               after_synthesis w (request_of options (RenderResult.segment step.1))
                               (RenderResult.filePath step.1) step.2)
            steps w.

(** Two segments that differ at most in text and hash. *)
Definition same_place (s s2 : Segment.t) : Prop :=
  Segment.index s2 = Segment.index s
  /\ Segment.slug s2 = Segment.slug s
  /\ Segment.title s2 = Segment.title s.

(** [seg_body] after an edit of its text. *)
Definition seg_body_edited : Segment.t :=
  Segment.mk 2 "Body" "body" "The body, revised." src_heading "ffffffffffffffff".

Definition sample_chunk_options : ChunkOptions.t :=
  ChunkOptions.mk mode_headings 20%float None None "templates" "voice-a".

(** What [chunkScript] makes of [h1_only_document] with these options,
    hashing with the identity in place of SHA-256. *)
Definition h1_only_segments : list Segment.t :=
  [Segment.mk 1 "My Video" "my-video" "First sentence here. Second sentence here."
     src_heading
     (contentHash (fun s => s)
        ["First sentence here. Second sentence here."; "voice-a"; "en"])].

(** A line that is neither a [##] nor a [#] heading for
    [parseMarkdownHeadings]. *)
Definition plain_line (line : string) : Prop :=
  Regex.capture Regex.h2 3 line = None /\ Regex.capture Regex.h1 2 line = None.

Definition is_h2_line (line : string) : bool :=
  match Regex.capture Regex.h2 3 line with Some _ => true | None => false end.

(** The sentence units [autoChunk] accumulates for a trimmed text. *)
Definition sentences_of (text : string) : list string :=
  match Regex.match_all (S (String.length text)) Regex.sentence (JsString.chars text) with
  | [] => [text]
  | ms => map JsString.of_chars ms
  end.

(** What [autoChunk] returns once its loop ends in state [st]. *)
Definition autoChunk_finish (st : AutoChunk.state) : list Section_.t :=
  if truthy (trim (AutoChunk.current st))
  then AutoChunk.chunks st ++
       [Section_.mk (AutoChunk.segment_title (AutoChunk.chunkNum st))
                    (trim (AutoChunk.current st))]
  else AutoChunk.chunks st.

(** A string with a character that [trim] keeps. *)
Definition solid (s : string) : Prop :=
  exists c, c ∈ JsString.chars s /\ Char.isSpace c = false.

(** The section that a template file contributes to a script: none when
    the template has no such file, the file is missing, or it is blank. *)
Definition template_part (w : World) (templateDir : string) (file : option string)
    (title : string) : list RawSection.t :=
  match file with
  | Some f =>
      match files w !! Path.join templateDir f with
      | Some content =>
          if truthy (trim content)
          then [RawSection.mk title (trim content) src_template] else []
      | None => []
      end
  | None => []
  end.

(** A segment without its number, slug and hash. *)
Definition raw_of (s : Segment.t) : RawSection.t :=
  RawSection.mk (Segment.title s) (Segment.text s) (Segment.source s).

Definition with_mode (m : ChunkMode) (o : ChunkOptions.t) : ChunkOptions.t :=
  ChunkOptions.mk m (ChunkOptions.maxChars o) (ChunkOptions.language o)
    (ChunkOptions.template o) (ChunkOptions.templateDir o) (ChunkOptions.voiceId o).

Definition with_template (t : option TemplateName) (o : ChunkOptions.t) : ChunkOptions.t :=
  ChunkOptions.mk (ChunkOptions.mode o) (ChunkOptions.maxChars o) (ChunkOptions.language o)
    t (ChunkOptions.templateDir o) (ChunkOptions.voiceId o).

(** What the loop of [autoChunk] keeps true of its variables. *)
Record chunking (sentences : list string) (maxChars : float) (st : AutoChunk.state)
  : Prop := {
  chunking_num : AutoChunk.chunkNum st = length (AutoChunk.chunks st) + 1;
  chunking_titles :
    forall i sec, AutoChunk.chunks st !! i = Some sec ->
                  Section_.title sec = AutoChunk.segment_title (i + 1);
  chunking_sizes :
    Forall (fun sec =>
              JsNumber.int_gt (String.length (Section_.text sec)) maxChars = false
              \/ exists s, s ∈ sentences /\ Section_.text sec = trim s)
           (AutoChunk.chunks st);
  chunking_current :
    AutoChunk.current st = ""
    \/ JsNumber.int_gt (String.length (AutoChunk.current st)) maxChars = false
    \/ AutoChunk.current st ∈ sentences;
  chunking_texts :
    Forall (fun sec => 0 < String.length (Section_.text sec)) (AutoChunk.chunks st);
  chunking_solid : AutoChunk.current st = "" \/ solid (AutoChunk.current st);
}.

(* ================================================================== *)
(** * Properties of the timeline assembler                             *)
(* ================================================================== *)

Lemma forallb_false_elem {A} (p : A -> bool) (l : list A) (x : A) :
  x ∈ l -> p x = false -> forallb p l = false.
Proof.
  induction 1 as [x l|x y l _ IH]; intros Hp; simpl.
  - by rewrite Hp.
  - rewrite IH by done. apply andb_false_r.
Qed.

Lemma buildTimeline_has_durations (results : list RenderResult.t) :
  TimelineData.has_durations (buildTimeline results)
  = forallb (fun r => JsNumber.gt0 (RenderResult.duration r)) results.
Proof.
  unfold buildTimeline.
  by destruct (fold_left timelineStep results ([], 0%float)).
Qed.

(** C8: on durations [2.0, 3.5, 1.0] the timeline starts at 0, 2.0 and
    5.5, ends at 2.0, 5.5 and 6.5, totals 6.5 and has durations; and when
    some result has duration 0, has_durations is false and neither
    chapters nor captions are produced. *)
Theorem timeline_offsets_and_withholding :
  (forall results : list RenderResult.t,
      map RenderResult.duration results = [2.0; 3.5; 1.0]%float ->
      let t := buildTimeline results in
      map TimelineEntry.start_seconds (TimelineData.segments t) = [0; 2.0; 5.5]%float
      /\ map TimelineEntry.end_seconds (TimelineData.segments t) = [2.0; 5.5; 6.5]%float
      /\ TimelineData.total_duration_seconds t = 6.5%float
      /\ TimelineData.has_durations t = true)
  /\ (forall toString_general (results : list RenderResult.t) (segments : list Segment.t)
             (r : RenderResult.t),
         r ∈ results -> RenderResult.duration r = 0%float ->
         let t := buildTimeline results in
         TimelineData.has_durations t = false
         /\ buildChapters toString_general t = None
         /\ buildCaptionsSrt toString_general t segments = None).
Proof.
  split.
  - intros [|[s1 p1 f1 c1 d1] [|[s2 p2 f2 c2 d2] [|[s3 p3 f3 c3 d3] [|? ?]]]] H;
      simplify_eq/=.
    by repeat split.
  - intros toStr results segments r Hin Hzero t.
    assert (Hd : TimelineData.has_durations t = false).
    { unfold t. rewrite buildTimeline_has_durations.
      apply (forallb_false_elem _ _ r Hin). by rewrite Hzero. }
    unfold buildChapters, buildCaptionsSrt. by rewrite Hd.
Qed.

(** C10: the timeline of no results has no entries, total 0 and
    has_durations = true, and its chapters are the empty string. *)
Theorem timeline_of_nothing :
  buildTimeline [] = TimelineData.mk [] 0%float true
  /\ forall toString_general,
       buildChapters toString_general (buildTimeline []) = Some "".
Proof. split; [reflexivity | intros; reflexivity]. Qed.

Lemma timeline_offsets_and_withholding_witness :
  map TimelineEntry.start_seconds
      (TimelineData.segments
         (buildTimeline [sample_result 1 "Intro" 2.0; sample_result 2 "Body" 3.5;
                         sample_result 3 "Outro" 1.0]))
  = [0; 2.0; 5.5]%float
  /\ sample_result 2 "Body" 0 ∈ [sample_result 1 "Intro" 2.0; sample_result 2 "Body" 0]
  /\ TimelineData.has_durations
       (buildTimeline [sample_result 1 "Intro" 2.0; sample_result 2 "Body" 0]) = false
  /\ buildChapters (fun _ => "")
       (buildTimeline [sample_result 1 "Intro" 2.0; sample_result 2 "Body" 0]) = None.
Proof.
  destruct timeline_offsets_and_withholding as [Hexample Hzero].
  split.
  - exact (proj1 (Hexample [sample_result 1 "Intro" 2.0; sample_result 2 "Body" 3.5;
                            sample_result 3 "Outro" 1.0] eq_refl)).
  - assert (Hin : sample_result 2 "Body" 0
                  ∈ [sample_result 1 "Intro" 2.0; sample_result 2 "Body" 0])
      by apply list_elem_of_further, list_elem_of_here.
    split; [exact Hin|].
    destruct (Hzero (fun _ => "") _ [] _ Hin eq_refl) as (H1 & H2 & _).
    exact (conj H1 H2).
Defined.

(* ================================================================== *)
(** * Running the render pass                                          *)
(* ================================================================== *)

Lemma requests_for_hit options (r : RenderResult.t) rest :
  RenderResult.cached r = true ->
  requests_for options (r :: rest) = requests_for options rest.
Proof.
  intros Hc. unfold requests_for. rewrite filter_cons.
  destruct (decide _) as [Hm|Hm]; [|done].
  unfold is_miss in Hm. rewrite Hc in Hm. done.
Qed.

Lemma requests_for_miss options (r : RenderResult.t) rest :
  RenderResult.cached r = false ->
  requests_for options (r :: rest)
  = request_of options (RenderResult.segment r) :: requests_for options rest.
Proof.
  intros Hc. unfold requests_for. rewrite filter_cons.
  destruct (decide _) as [Hm|Hm]; [done|].
  unfold is_miss in Hm. rewrite Hc in Hm. by destruct Hm.
Qed.

Ltac run_m :=
  unfold mbind, M_bind, bind, mret, M_ret, ret, throw, try_catch,
    VoiceAIClient.generateSpeech, writeOutputFile, probeDuration, fileExists,
    loadCacheManifest, saveCacheManifest, ensureDir in *;
  simpl in *.

Section RenderFacts.
Variable ffprobe : World -> string -> option float.
Variable client : VoiceAIClient.t.
Variable options : RenderOptions.t.

Let segDir := Path.join (RenderOptions.outputDir options) "segments".

Lemma checkCache_spec (cache : CacheManifest) (s : Segment.t) (w : World) :
  exists r, checkCache options segDir cache s w = (inr r, w)
            /\ Planned options cache w s r.
Proof.
  assert (Hmiss : ~ CacheHit options cache w s ->
    Planned options cache w s
      (RenderResult.mk s (Path.join segDir (segmentFileName s)) (segmentFileName s)
         false 0%float)).
  { intros Hno. constructor; simpl; try done. }
  unfold checkCache.
  destruct (cache !! segmentCacheKey s) as [entry|] eqn:Hlook.
  2:{ eexists; split; [reflexivity|]. apply Hmiss.
      intros (_ & e & He & _). congruence. }
  destruct (RenderOptions.force options) eqn:Hforce; simpl.
  { eexists; split; [reflexivity|]. apply Hmiss.
    intros (Hf & _). congruence. }
  destruct (String.eqb (CacheEntry.hash entry) (Segment.hash s)) eqn:Hh; simpl;
    [apply String.eqb_eq in Hh | apply String.eqb_neq in Hh].
  2:{ eexists; split; [reflexivity|]. apply Hmiss.
      intros (_ & e & He & Hhe & _). congruence. }
  destruct (String.eqb (CacheEntry.file entry) (segmentFileName s)) eqn:Hf; simpl;
    [apply String.eqb_eq in Hf | apply String.eqb_neq in Hf].
  2:{ eexists; split; [reflexivity|]. apply Hmiss.
      intros (_ & e & He & _ & Hfe & _). congruence. }
  run_m.
  destruct (bool_decide (is_Some (files w !! Path.join segDir (segmentFileName s))))
    eqn:Hex; [apply bool_decide_eq_true in Hex | apply bool_decide_eq_false in Hex];
    (eexists; split; [reflexivity|]).
  - constructor; simpl; try done.
    + split; [|done]. intros _. split; [done|]. by exists entry.
    + intros _. by exists entry.
  - apply Hmiss. intros (_ & e & _ & _ & _ & Hfile). by apply Hex.
Qed.

Lemma checkAll_spec (cache : CacheManifest) (segments : list Segment.t) :
  forall (acc : list RenderResult.t) (c n : nat) (w : World),
  exists rs c' n',
    checkAll options segDir cache segments acc c n w = (inr (acc ++ rs, c', n'), w)
    /\ Forall2 (Planned options cache w) segments rs.
Proof.
  induction segments as [|s rest IH]; intros acc c n w; simpl.
  - exists [], c, n. rewrite app_nil_r. by split.
  - destruct (checkCache_spec cache s w) as (r & Hr & Hplan).
    run_m. rewrite Hr.
    destruct (RenderResult.cached r).
    + destruct (IH (acc ++ [r]) (c + 1) n w) as (rs & c' & n' & Hrun & Hall).
      exists (r :: rs), c', n'. rewrite Hrun, <- app_assoc. by split; [|constructor].
    + destruct (IH (acc ++ [r]) c (n + 1) w) as (rs & c' & n' & Hrun & Hall).
      exists (r :: rs), c', n'. rewrite Hrun, <- app_assoc. by split; [|constructor].
Qed.

Lemma renderOne_ok (r : RenderResult.t) (c : CacheManifest) (w : World)
    (response : TTSResponse.t) :
  let request := request_of options (RenderResult.segment r) in
  VoiceAIClient.respond client w request = inr response ->
  exists probed : option float,
    probeDuration ffprobe (RenderResult.filePath r)
      (after_synthesis w request (RenderResult.filePath r) response)
    = (inr probed, after_synthesis w request (RenderResult.filePath r) response)
    /\ renderOne ffprobe client options r c w
       = (inr (RenderResult.set_duration
                 (default (TTSResponse.duration_seconds response) probed) r,
               <[segmentCacheKey (RenderResult.segment r) := new_entry r response]> c),
          after_synthesis w request (RenderResult.filePath r) response).
Proof.
  intros request Hresp. eexists. split; [reflexivity|].
  unfold renderOne. run_m. fold request. by rewrite Hresp.
Qed.

Lemma renderOne_fail (r : RenderResult.t) (c : CacheManifest) (w : World)
    (err : string) :
  let request := request_of options (RenderResult.segment r) in
  VoiceAIClient.respond client w request = inl err ->
  renderOne ffprobe client options r c w
  = (inl (failure_message (Segment.title (RenderResult.segment r)) err),
     mkWorld (files w) (manifest w) (tts_log w ++ [(request, inl err)])).
Proof.
  intros request Hresp. unfold renderOne. run_m. fold request. by rewrite Hresp.
Qed.

(** What a successful second loop leaves behind. *)
Lemma renderNew_ok (rs : list RenderResult.t) :
  forall (c : CacheManifest) (w : World) rs' c' w',
  renderNew ffprobe client options rs c w = (inr (rs', c'), w') ->
  Forall2 (fun r r' =>
             RenderResult.segment r' = RenderResult.segment r
             /\ RenderResult.fileName r' = RenderResult.fileName r
             /\ RenderResult.filePath r' = RenderResult.filePath r
             /\ RenderResult.cached r' = RenderResult.cached r
             /\ (RenderResult.cached r = true -> r' = r)) rs rs'
  /\ (exists calls, tts_log w' = tts_log w ++ calls
        /\ map fst calls = requests_for options rs
        /\ Forall (fun call => is_inr (snd call)) calls)
  /\ manifest w' = manifest w
  /\ (forall p, is_Some (files w !! p) -> is_Some (files w' !! p))
  /\ (forall r, r ∈ rs -> RenderResult.cached r = false ->
        is_Some (files w' !! RenderResult.filePath r))
  /\ (forall k,
        (c' !! k = c !! k
         /\ forall r, r ∈ rs -> RenderResult.cached r = false ->
              segmentCacheKey (RenderResult.segment r) <> k)
        \/ (exists r d, r ∈ rs /\ RenderResult.cached r = false
              /\ segmentCacheKey (RenderResult.segment r) = k
              /\ c' !! k = Some (CacheEntry.mk (Segment.hash (RenderResult.segment r))
                                               (RenderResult.fileName r) d))).
Proof.
  induction rs as [|r rest IH]; intros c w rs' c' w' Hrun; simpl in Hrun.
  - run_m. simplify_eq.
    repeat split; try done.
    + exists []. by rewrite app_nil_r.
    + intros r Hr. by apply elem_of_nil in Hr.
    + intros k. left. split; [done|]. intros r Hr. by apply elem_of_nil in Hr.
  - destruct (RenderResult.cached r) eqn:Hc.
    + run_m.
      destruct (renderNew ffprobe client options rest c w) as [[err|[rest1 c1]] w1] eqn:Hrest;
        simplify_eq.
      destruct (IH _ _ _ _ _ Hrest)
        as (Hall & (calls & Hlog & Hreq & Hsucc) & Hman & Hkeep & Hnew & Hcache).
      repeat split; try done.
      * constructor; [by rewrite Hc|done].
      * exists calls. by rewrite requests_for_hit.
      * intros r0 [->|Hr0]%elem_of_cons Hmiss; [congruence|by apply Hnew].
      * intros k. destruct (Hcache k) as [[Heq Hno]|(r0 & d & Hr0 & Hm & Hk & He)].
        -- left. split; [done|].
           intros r0 [->|Hr0]%elem_of_cons Hmiss; [congruence|by apply Hno].
        -- right. exists r0, d. repeat split; try done. by apply list_elem_of_further.
    + unfold mbind, M_bind, bind in Hrun.
      destruct (VoiceAIClient.respond client w (request_of options (RenderResult.segment r)))
        as [err|response] eqn:Hresp.
      { rewrite (renderOne_fail _ _ _ _ Hresp) in Hrun. discriminate. }
      destruct (renderOne_ok r c w response Hresp) as (probed & _ & Hone).
      rewrite Hone in Hrun.
      destruct (renderNew ffprobe client options rest _ _) as [[err|[rest1 c1]] w1] eqn:Hrest;
        run_m; simplify_eq.
      destruct (IH _ _ _ _ _ Hrest)
        as (Hall & (calls & Hlog & Hreq & Hsucc) & Hman & Hkeep & Hnew & Hcache).
      repeat split; try done.
      * constructor; [|done]. simpl. repeat split; try done. congruence.
      * exists ((request_of options (RenderResult.segment r), inr response) :: calls).
        rewrite Hlog, requests_for_miss by done. simpl.
        rewrite <- app_assoc, Hreq. repeat split; try done.
        constructor; [done|done].
      * intros p Hp. apply Hkeep. simpl.
        destruct (decide (RenderResult.filePath r = p)) as [->|Hne].
        -- rewrite lookup_insert_eq. by eexists.
        -- by rewrite lookup_insert_ne.
      * intros r0 [->|Hr0]%elem_of_cons Hmiss; [|by apply Hnew].
        apply Hkeep. simpl. rewrite lookup_insert_eq. by eexists.
      * intros k. destruct (Hcache k) as [[Heq Hno]|(r0 & d & Hr0 & Hm & Hk & He)].
        -- destruct (decide (segmentCacheKey (RenderResult.segment r) = k)) as [Hk|Hk].
           ++ right. exists r, (TTSResponse.duration_seconds response).
              repeat split; try done; [apply list_elem_of_here|].
              rewrite Heq, <- Hk. by rewrite lookup_insert_eq.
           ++ left. split.
              ** rewrite Heq. by rewrite lookup_insert_ne.
              ** intros r0 [->|Hr0]%elem_of_cons Hmiss; [done|by apply Hno].
        -- right. exists r0, d. repeat split; try done. by apply list_elem_of_further.
Qed.

(** What a failed second loop leaves behind: it stopped at the first
    result whose synthesis was rejected. *)
Lemma renderNew_fail (rs : list RenderResult.t) :
  forall (c : CacheManifest) (w : World) msg w',
  renderNew ffprobe client options rs c w = (inl msg, w') ->
  exists pre r post err w_call,
    rs = pre ++ r :: post
    /\ RenderResult.cached r = false
    /\ VoiceAIClient.respond client w_call (request_of options (RenderResult.segment r))
       = inl err
    /\ msg = failure_message (Segment.title (RenderResult.segment r)) err
    /\ (exists calls,
          tts_log w' = tts_log w ++ calls
                         ++ [(request_of options (RenderResult.segment r), inl err)]
          /\ map fst calls = requests_for options pre
          /\ Forall (fun call => is_inr (snd call)) calls)
    /\ manifest w' = manifest w
    /\ (forall p,
          (forall r0, r0 ∈ pre -> RenderResult.cached r0 = false ->
                      RenderResult.filePath r0 <> p) ->
          files w' !! p = files w !! p).
Proof.
  induction rs as [|r rest IH]; intros c w msg w' Hrun; simpl in Hrun.
  - run_m. discriminate.
  - destruct (RenderResult.cached r) eqn:Hc.
    + unfold mbind, M_bind, bind in Hrun.
      destruct (renderNew ffprobe client options rest c w) as [[err|[rest1 c1]] w1] eqn:Hrest;
        run_m; simplify_eq.
      destruct (IH _ _ _ _ Hrest)
        as (pre & r1 & post & err1 & wc & -> & Hm & Hresp & -> &
            (calls & Hlog & Hreq & Hsucc) & Hman & Hfiles).
      exists (r :: pre), r1, post, err1, wc. repeat split; try done.
      * exists calls. by rewrite requests_for_hit.
      * intros p Hp. apply Hfiles. intros r0 Hr0. apply Hp. by apply list_elem_of_further.
    + unfold mbind, M_bind, bind in Hrun.
      destruct (VoiceAIClient.respond client w (request_of options (RenderResult.segment r)))
        as [err|response] eqn:Hresp.
      { rewrite (renderOne_fail _ _ _ _ Hresp) in Hrun. simplify_eq.
        exists [], r, rest, err, w. repeat split; try done.
        by exists []. }
      destruct (renderOne_ok r c w response Hresp) as (probed & _ & Hone).
      rewrite Hone in Hrun.
      destruct (renderNew ffprobe client options rest _ _) as [[err|[rest1 c1]] w1] eqn:Hrest;
        run_m; simplify_eq.
      destruct (IH _ _ _ _ Hrest)
        as (pre & r1 & post & err1 & wc & -> & Hm & Hresp1 & -> &
            (calls & Hlog & Hreq & Hsucc) & Hman & Hfiles).
      exists (r :: pre), r1, post, err1, wc. repeat split; try done.
      * exists ((request_of options (RenderResult.segment r), inr response) :: calls).
        rewrite Hlog, requests_for_miss by done. simpl.
        rewrite <- !app_assoc, Hreq. repeat split; try done.
        constructor; [done|done].
      * intros p Hp. rewrite Hfiles.
        -- simpl. apply lookup_insert_ne. apply Hp; [apply list_elem_of_here|done].
        -- intros r0 Hr0. apply Hp. by apply list_elem_of_further.
Qed.

(** [renderSegments] is its two loops followed by the save. *)
Lemma renderSegments_run (segments : list Segment.t) (w : World) :
  exists rs0,
    Forall2 (Planned options (initial_cache options w) w) segments rs0
    /\ renderSegments ffprobe segments client options w
       = match renderNew ffprobe client options rs0 (initial_cache options w) w with
         | (inr (rs', c'), w') => (inr rs', mkWorld (files w') (Stored c') (tts_log w'))
         | (inl err, w') => (inl err, w')
         end.
Proof.
  destruct (checkAll_spec (initial_cache options w) segments [] 0 0 w)
    as (rs0 & c' & n' & Hrun & Hall).
  exists rs0. split; [done|].
  unfold renderSegments, initial_cache in *. run_m.
  destruct (RenderOptions.force options); simpl; fold segDir;
    (unfold on_disk in *; rewrite Hrun; simpl;
     by destruct (renderNew ffprobe client options rs0 _ w) as [[?|[? ?]] ?]).
Qed.

End RenderFacts.

(* ================================================================== *)
(** * Properties of the render pass                                    *)
(* ================================================================== *)

Lemma requests_for_same_plan options (rs rs' : list RenderResult.t) :
  Forall2 same_plan rs rs' -> requests_for options rs' = requests_for options rs.
Proof.
  induction 1 as [|r r' rs rs' (Hs & _ & _ & Hc & _) _ IH]; [done|].
  destruct (RenderResult.cached r) eqn:Hr.
  - by rewrite !requests_for_hit.
  - rewrite !requests_for_miss by done. by rewrite IH, Hs.
Qed.

Lemma CacheHit_initial options (w : World) (s : Segment.t) :
  CacheHit options (initial_cache options w) w s <-> CacheHit options (on_disk w) w s.
Proof.
  unfold CacheHit, initial_cache.
  destruct (RenderOptions.force options); [|done].
  split; intros [? _]; done.
Qed.

Lemma Planned_segments options cache w (segments : list Segment.t) rs :
  Forall2 (Planned options cache w) segments rs ->
  map RenderResult.segment rs = segments.
Proof. induction 1 as [|s r ? ? Hp _ IH]; [done|]. simpl. by rewrite IH, (planned_segment _ _ _ _ _ Hp). Qed.

(** A successful pass: the plan of the first loop, what the second loop
    made of it, and the manifest it saved. *)
Lemma renderSegments_ok ffprobe segments client options w results w' :
  renderSegments ffprobe segments client options w = (inr results, w') ->
  exists rs0 saved w1,
    Forall2 (Planned options (initial_cache options w) w) segments rs0
    /\ renderNew ffprobe client options rs0 (initial_cache options w) w
       = (inr (results, saved), w1)
    /\ w' = mkWorld (files w1) (Stored saved) (tts_log w1).
Proof.
  intros Hrun.
  destruct (renderSegments_run ffprobe client options segments w) as (rs0 & Hplan & Heq).
  rewrite Heq in Hrun.
  destruct (renderNew ffprobe client options rs0 _ w) as [[err|[rs' c']] w1] eqn:Hnew;
    simplify_eq.
  by exists rs0, c', w1.
Qed.

(** C1: in the results of a pass, a segment is marked cached exactly when
    the pass is not forced, the manifest on disk has an entry under the
    segment's key with the segment's hash and file name, and the file is
    on disk; a cached result carries the entry's duration, and the
    synthesis calls of the pass are exactly those of the results that are
    not cached. *)
Theorem cache_hit_iff ffprobe segments client options w results w' :
  renderSegments ffprobe segments client options w = (inr results, w') ->
  Forall2 (fun s r =>
             RenderResult.segment r = s
             /\ (RenderResult.cached r = true <-> CacheHit options (on_disk w) w s)
             /\ (RenderResult.cached r = true ->
                 exists entry, on_disk w !! segmentCacheKey s = Some entry
                   /\ RenderResult.duration r = CacheEntry.duration entry))
          segments results
  /\ exists calls, tts_log w' = tts_log w ++ calls
       /\ map fst calls = requests_for options results.
Proof.
  intros Hrun.
  destruct (renderSegments_ok _ _ _ _ _ _ _ Hrun) as (rs0 & saved & w1 & Hplan & Hnew & ->).
  destruct (renderNew_ok _ _ _ _ _ _ _ _ _ Hnew)
    as (Hsame & (calls & Hlog & Hreq & _) & _).
  split.
  - eapply Forall2_trans; [|exact Hplan|exact Hsame].
    intros s r0 r [Hseg Hname Hpath Hcached Hhit Hmiss] (Hs & _ & _ & Hc & Hkeep).
    simpl in *. split; [congruence|]. rewrite Hc. split.
    + by rewrite Hcached, CacheHit_initial.
    + intros Hr0. rewrite (Hkeep Hr0).
      destruct (Hhit Hr0) as (entry & Hentry & Hd).
      apply Hcached in Hr0 as [Hforce _].
      unfold initial_cache in Hentry. rewrite Hforce in Hentry. by exists entry.
  - exists calls. simpl. split; [done|].
    rewrite Hreq. symmetry. by apply requests_for_same_plan.
Qed.

(** A rejected pass: it stopped in the second loop, at a planned miss. *)
Lemma renderSegments_rejected ffprobe segments client options w msg w' :
  renderSegments ffprobe segments client options w = (inl msg, w') ->
  exists rs0,
    Forall2 (Planned options (initial_cache options w) w) segments rs0
    /\ renderNew ffprobe client options rs0 (initial_cache options w) w = (inl msg, w').
Proof.
  intros Hrun.
  destruct (renderSegments_run ffprobe client options segments w) as (rs0 & Hplan & Heq).
  rewrite Heq in Hrun.
  destruct (renderNew ffprobe client options rs0 _ w) as [[err|[rs' c']] w1] eqn:Hnew;
    simplify_eq.
  by exists rs0.
Qed.

Lemma synthesized_sublist options cache w (pre : list Segment.t) rs :
  Forall2 (Planned options cache w) pre rs ->
  exists earlier, earlier `sublist_of` pre
    /\ requests_for options rs = map (request_of options) earlier.
Proof.
  intros Hplan. exists (map RenderResult.segment (filter is_miss rs)). split.
  - rewrite <- (Planned_segments _ _ _ _ _ Hplan).
    apply fmap_sublist, sublist_filter.
  - unfold requests_for. by rewrite map_map.
Qed.

(** C3: when a synthesis call of a pass is rejected, the pass is rejected
    with the message [Failed to render segment "<title>": <error>], which
    names the title of the segment being synthesized and the error of the
    call; the calls of the pass are those of segments before it, all resolved,
    followed by the rejected one; no file changes except the audio files
    of segments before it; and the manifest on disk is untouched. *)
Theorem synthesis_failure_aborts ffprobe segments client options w outcome w' calls :
  renderSegments ffprobe segments client options w = (outcome, w') ->
  tts_log w' = tts_log w ++ calls ->
  (exists call, call ∈ calls /\ ~ is_inr (snd call)) ->
  exists pre s post err,
    segments = pre ++ s :: post
    /\ outcome = inl ("Failed to render segment " +:+ JsString.dquote +:+ Segment.title s
                      +:+ JsString.dquote +:+ ": " +:+ err)
    /\ (exists earlier earlier_calls,
          earlier `sublist_of` pre
          /\ map fst earlier_calls = map (request_of options) earlier
          /\ Forall (fun call => is_inr (snd call)) earlier_calls
          /\ calls = earlier_calls ++ [(request_of options s, inl err)])
    /\ (forall p, (forall s0, s0 ∈ pre -> segmentFilePath options s0 <> p) ->
                  files w' !! p = files w !! p)
    /\ manifest w' = manifest w.
Proof.
  intros Hrun Hcalls (call & Hin & Hrej).
  destruct outcome as [msg|results].
  - destruct (renderSegments_rejected _ _ _ _ _ _ _ Hrun) as (rs0 & Hplan & Hnew).
    destruct (renderNew_fail _ _ _ _ _ _ _ _ Hnew)
      as (pre_r & r & post_r & err & wc & -> & Hmiss & _ & -> &
          (calls0 & Hlog & Hreq & Hsucc) & Hman & Hfiles).
    apply Forall2_app_inv_r in Hplan as (pre & rest & Hpre & Hrest & ->).
    apply Forall2_cons_inv_r in Hrest as (s & post & Hs & Hpost & ->).
    exists pre, s, post, err.
    rewrite (planned_segment _ _ _ _ _ Hs) in *.
    destruct (synthesized_sublist options _ _ _ _ Hpre) as (earlier & Hsub & Hearlier).
    repeat split; try done.
    + exists earlier, calls0. repeat split; try done; [congruence|].
      rewrite Hcalls in Hlog. by apply app_inv_head in Hlog.
    + intros p Hp. apply Hfiles. intros r0 Hr0 _ Heq.
      apply list_elem_of_lookup in Hr0 as [i Hi].
      destruct (Forall2_lookup_r _ _ _ _ _ Hpre Hi) as (s0 & Hs0 & Hp0).
      apply (Hp s0); [by eapply list_elem_of_lookup_2|].
      by rewrite <- (planned_filePath _ _ _ _ _ Hp0).
  - destruct (renderSegments_ok _ _ _ _ _ _ _ Hrun) as (rs0 & saved & w1 & Hplan & Hnew & ->).
    destruct (renderNew_ok _ _ _ _ _ _ _ _ _ Hnew)
      as (_ & (calls0 & Hlog & _ & Hsucc) & _).
    simpl in Hcalls. rewrite Hcalls in Hlog. apply app_inv_head in Hlog as ->.
    rewrite Forall_forall in Hsucc. destruct Hrej. by apply Hsucc.
Qed.

Lemma Planned_elem options cache w (segments : list Segment.t) rs r :
  Forall2 (Planned options cache w) segments rs -> r ∈ rs ->
  exists s, s ∈ segments /\ Planned options cache w s r.
Proof.
  intros Hplan [i Hi]%list_elem_of_lookup.
  destruct (Forall2_lookup_r _ _ _ _ _ Hplan Hi) as (s & Hs & Hp).
  exists s. split; [by eapply list_elem_of_lookup_2|done].
Qed.

(** C5, as the code has it: a pass that is not forced keeps every key of
    the manifest on disk, each entry unchanged or overwritten by the entry
    of a segment of the pass; a rejected pass leaves the manifest file
    untouched; a forced pass saves entries of its own segments only. *)
Theorem manifest_keys_kept_unless_forced ffprobe segments client options w outcome w' :
  renderSegments ffprobe segments client options w = (outcome, w') ->
  (forall msg, outcome = inl msg -> manifest w' = manifest w)
  /\ (forall results, outcome = inr results ->
        RenderOptions.force options = false ->
        forall k entry, on_disk w !! k = Some entry ->
          on_disk w' !! k = Some entry
          \/ exists s d, s ∈ segments /\ segmentCacheKey s = k
               /\ on_disk w' !! k
                  = Some (CacheEntry.mk (Segment.hash s) (segmentFileName s) d))
  /\ (forall results, outcome = inr results ->
        RenderOptions.force options = true ->
        forall k, is_Some (on_disk w' !! k) ->
          exists s, s ∈ segments /\ segmentCacheKey s = k).
Proof.
  intros Hrun.
  assert (Hwritten : forall (saved : CacheManifest) rs0 k r (d : float),
    Forall2 (Planned options (initial_cache options w) w) segments rs0 ->
    r ∈ rs0 -> segmentCacheKey (RenderResult.segment r) = k ->
    saved !! k = Some (CacheEntry.mk (Segment.hash (RenderResult.segment r))
                                     (RenderResult.fileName r) d) ->
    exists s d, s ∈ segments /\ segmentCacheKey s = k
      /\ saved !! k = Some (CacheEntry.mk (Segment.hash s) (segmentFileName s) d)).
  { intros saved rs0 k r d Hplan Hr Hk Hsaved.
    destruct (Planned_elem _ _ _ _ _ _ Hplan Hr) as (s & Hs & [Hseg Hname _ _ _ _]).
    exists s, d. rewrite Hseg in *. rewrite Hname in Hsaved. by repeat split. }
  repeat split.
  - intros msg ->.
    destruct (renderSegments_rejected _ _ _ _ _ _ _ Hrun) as (rs0 & Hplan & Hnew).
    by destruct (renderNew_fail _ _ _ _ _ _ _ _ Hnew)
      as (? & ? & ? & ? & ? & _ & _ & _ & _ & _ & Hman & _).
  - intros results -> Hforce k entry Hentry.
    destruct (renderSegments_ok _ _ _ _ _ _ _ Hrun) as (rs0 & saved & w1 & Hplan & Hnew & ->).
    destruct (renderNew_ok _ _ _ _ _ _ _ _ _ Hnew) as (_ & _ & _ & _ & _ & Hcache).
    assert (Hdisk : on_disk (mkWorld (files w1) (Stored saved) (tts_log w1)) = saved)
      by done.
    rewrite Hdisk.
    destruct (Hcache k) as [[Heq _]|(r & d & Hr & _ & Hk & Hsaved)].
    + left. rewrite Heq. unfold initial_cache. by rewrite Hforce.
    + right. by eapply Hwritten.
  - intros results -> Hforce k [entry Hentry].
    destruct (renderSegments_ok _ _ _ _ _ _ _ Hrun) as (rs0 & saved & w1 & Hplan & Hnew & ->).
    destruct (renderNew_ok _ _ _ _ _ _ _ _ _ Hnew) as (_ & _ & _ & _ & _ & Hcache).
    unfold on_disk in Hentry; simpl in Hentry.
    destruct (Hcache k) as [[Heq _]|(r & d & Hr & _ & Hk & Hsaved)].
    + rewrite Heq in Hentry. unfold initial_cache in Hentry. rewrite Hforce in Hentry.
      by rewrite lookup_empty in Hentry.
    + destruct (Hwritten saved rs0 k r d Hplan Hr Hk Hsaved) as (s & _ & Hs & Hks & _).
      by exists s.
Qed.

Lemma NoDup_map_inj_on {A B} (f : A -> B) (l : list A) (x y : A) :
  NoDup (map f l) -> x ∈ l -> y ∈ l -> f x = f y -> x = y.
Proof.
  induction l as [|a l IH]; simpl; intros Hnd Hx Hy Hf.
  - by apply elem_of_nil in Hx.
  - apply NoDup_cons in Hnd as [Ha Hnd].
    apply elem_of_cons in Hx as [->|Hx]; apply elem_of_cons in Hy as [->|Hy]; try done.
    + destruct Ha. rewrite Hf. by apply list_elem_of_fmap_2.
    + destruct Ha. rewrite <- Hf. by apply list_elem_of_fmap_2.
    + by apply IH.
Qed.

(** Nothing is synthesized for results that are all cached. *)
Lemma renderNew_all_cached ffprobe client options (rs : list RenderResult.t)
    (c : CacheManifest) (w : World) :
  Forall (fun r => RenderResult.cached r = true) rs ->
  renderNew ffprobe client options rs c w = (inr (rs, c), w).
Proof.
  induction 1 as [|r rs Hr _ IH]; [done|].
  simpl. rewrite Hr. run_m. by rewrite IH.
Qed.

Lemma distinct_keys_coherent (segments : list Segment.t) :
  NoDup (map segmentCacheKey segments) -> key_coherent segments.
Proof.
  intros Hnd s1 s2 H1 H2 Hk.
  by rewrite (NoDup_map_inj_on _ _ _ _ Hnd H1 H2 Hk).
Qed.

(* ================================================================== *)
(** * Cache keys of numbered segments                                  *)
(* ================================================================== *)

Lemma chars_append (a b : string) :
  JsString.chars (a +:+ b) = JsString.chars a ++ JsString.chars b.
Proof. induction a as [|c a IH]; [done|]. simpl. by rewrite <- IH. Qed.

Lemma pretty_N_char_not_dash (x : N) : pretty_N_char x <> "-"%char.
Proof. unfold pretty_N_char. by repeat case_match. Qed.

Lemma pretty_N_go_dashless (x : N) :
  forall s, dashless s -> dashless (pretty_N_go x s).
Proof.
  induction (N.lt_wf_0 x) as [x _ IH]; intros s Hs.
  destruct (decide (x = 0)%N) as [->|Hx]; [by rewrite pretty_N_go_0|].
  rewrite pretty_N_go_step by lia.
  apply IH; [apply N.div_lt; lia|].
  constructor; [apply pretty_N_char_not_dash|done].
Qed.

Lemma pretty_N_go_head (x : N) :
  forall s, (0 < x)%N ->
    exists c, head_char (pretty_N_go x s) = Some c /\ c <> "0"%char.
Proof.
  induction (N.lt_wf_0 x) as [x _ IH]; intros s Hx.
  rewrite pretty_N_go_step by done.
  destruct (decide (x `div` 10 = 0)%N) as [Hq|Hq].
  - rewrite Hq, pretty_N_go_0. eexists; split; [reflexivity|].
    assert (x < 10)%N by (apply (N.div_small_iff x 10); [lia|done]).
    rewrite N.mod_small by done.
    assert (x = 1 \/ x = 2 \/ x = 3 \/ x = 4 \/ x = 5 \/ x = 6 \/ x = 7 \/ x = 8 \/ x = 9)%N
      as Hcases by lia.
    by destruct Hcases as [->|[->|[->|[->|[->|[->|[->|[->| ->]]]]]]]].
  - apply IH; [apply N.div_lt; lia|by apply N.neq_0_lt_0].
Qed.

Lemma pretty_nat_dashless (n : nat) : dashless (pretty n).
Proof.
  unfold pretty, pretty_nat, pretty, pretty_N.
  case_decide; [by repeat constructor|].
  apply pretty_N_go_dashless. constructor.
Qed.

Lemma pretty_nat_head (n : nat) :
  0 < n -> exists c, head_char (pretty n) = Some c /\ c <> "0"%char.
Proof.
  intros Hn. unfold pretty, pretty_nat, pretty, pretty_N.
  case_decide; [lia|]. apply pretty_N_go_head. lia.
Qed.

Lemma zeros_prefix_inj (k1 k2 : nat) (a b : string) (ca cb : ascii) :
  head_char a = Some ca -> ca <> "0"%char ->
  head_char b = Some cb -> cb <> "0"%char ->
  JsString.of_chars (replicate k1 "0"%char) +:+ a
  = JsString.of_chars (replicate k2 "0"%char) +:+ b ->
  a = b.
Proof.
  intros Ha Hca Hb Hcb. revert k2.
  induction k1 as [|k1 IH]; intros [|k2] Heq; simpl in Heq.
  - done.
  - destruct a; simplify_eq/=.
  - destruct b; simplify_eq/=.
  - simplify_eq. by eapply IH.
Qed.

Lemma zeroPad_inj (n m : nat) : 0 < n -> 0 < m -> zeroPad n = zeroPad m -> n = m.
Proof.
  intros Hn Hm Heq. unfold zeroPad, JsString.padStart in Heq.
  destruct (pretty_nat_head n Hn) as (cn & Hcn & Hn0).
  destruct (pretty_nat_head m Hm) as (cm & Hcm & Hm0).
  apply (inj pretty). by eapply zeros_prefix_inj.
Qed.

Lemma zeroPad_dashless (n : nat) : dashless (zeroPad n).
Proof.
  unfold zeroPad, JsString.padStart, dashless. rewrite chars_append.
  apply Forall_app. split; [|apply pretty_nat_dashless].
  unfold JsString.of_chars, JsString.chars. rewrite list_ascii_of_string_of_list_ascii.
  apply Forall_forall. intros c Hc%elem_of_replicate. by destruct Hc as [-> _].
Qed.

Lemma dash_split_inj (a b x y : string) :
  dashless a -> dashless b ->
  a +:+ "-" +:+ x = b +:+ "-" +:+ y -> a = b.
Proof.
  revert b. induction a as [|c a IH]; intros [|d b] Ha Hb Heq; simpl in Heq.
  - done.
  - simplify_eq. by apply Forall_cons in Hb as [? _].
  - simplify_eq. by apply Forall_cons in Ha as [? _].
  - simplify_eq. f_equal.
    apply Forall_cons in Ha as [_ Ha]. apply Forall_cons in Hb as [_ Hb].
    by apply IH.
Qed.

(** Segments numbered 1, 2, ... in order have pairwise distinct keys. *)
Lemma numbered_keys_distinct (segments : list Segment.t) :
  (forall i s, segments !! i = Some s -> Segment.index s = i + 1) ->
  NoDup (map segmentCacheKey segments).
Proof.
  intros Hnum. apply NoDup_alt. intros i j k Hi Hj.
  apply list_lookup_fmap_Some in Hi as (si & -> & Hi).
  apply list_lookup_fmap_Some in Hj as (sj & Hk & Hj).
  unfold segmentCacheKey in Hk.
  apply dash_split_inj in Hk; [|apply zeroPad_dashless..].
  rewrite (Hnum _ _ Hi), (Hnum _ _ Hj) in Hk.
  apply zeroPad_inj in Hk; lia.
Qed.

(** Segments with positive, pairwise distinct indexes have pairwise
    distinct keys, whatever their slugs. *)
Lemma well_indexed_keys_distinct (segments : list Segment.t) :
  well_indexed segments -> NoDup (map segmentCacheKey segments).
Proof.
  intros [Hpos Hnd]. rewrite Forall_forall in Hpos.
  apply NoDup_alt. intros i j k Hi Hj.
  apply list_lookup_fmap_Some in Hi as (si & -> & Hi).
  apply list_lookup_fmap_Some in Hj as (sj & Hk & Hj).
  unfold segmentCacheKey in Hk.
  apply dash_split_inj in Hk; [|apply zeroPad_dashless..].
  apply zeroPad_inj in Hk; [|apply Hpos; by eapply list_elem_of_lookup_2..].
  eapply NoDup_lookup; [exact Hnd| |]; rewrite list_lookup_fmap;
    [by rewrite Hi|by rewrite Hj, Hk].
Qed.

(** The numbering of [chunkScript] is such a numbering. *)
Lemma numbered_well_indexed (segments : list Segment.t) :
  (forall i s, segments !! i = Some s -> Segment.index s = i + 1) ->
  well_indexed segments.
Proof.
  intros Hnum. split.
  - apply Forall_forall. intros s [i Hi]%list_elem_of_lookup. rewrite (Hnum _ _ Hi). lia.
  - apply NoDup_alt. intros i j k Hi Hj.
    apply list_lookup_fmap_Some in Hi as (si & -> & Hi).
    apply list_lookup_fmap_Some in Hj as (sj & Hk & Hj).
    rewrite (Hnum _ _ Hi), (Hnum _ _ Hj) in Hk. lia.
Qed.

Lemma templateSection_run dir file title w :
  exists l, templateSection dir file title w = (inr l, w).
Proof.
  unfold templateSection, loadTemplate. destruct file as [f|]; [|by eexists].
  unfold mbind, M_bind, bind, mret, M_ret, ret, fileExists, readFile. simpl.
  destruct (files w !! Path.join dir f) as [content|] eqn:Hf; simpl.
  - rewrite Hf. by eexists.
  - by eexists.
Qed.

(** [chunkScript] never rejects, leaves the world as it is, and numbers
    its segments 1, 2, ...: their cache keys are pairwise distinct. *)
Lemma chunkScript_keys_distinct sha256_hex content options w :
  exists segments,
    chunkScript sha256_hex content options w = (inr segments, w)
    /\ (forall i s, segments !! i = Some s -> Segment.index s = i + 1)
    /\ NoDup (map segmentCacheKey segments).
Proof.
  assert (Hnum : forall raw i s,
    imap (fun i section =>
            Segment.mk (i + 1) (RawSection.title section)
              (slugify (RawSection.title section)) (RawSection.text section)
              (RawSection.source section)
              (contentHash sha256_hex
                 [RawSection.text section; ChunkOptions.voiceId options;
                  default "en" (ChunkOptions.language options)])) raw !! i = Some s ->
    Segment.index s = i + 1).
  { intros raw i s (section & _ & ->)%list_lookup_imap_Some. done. }
  unfold chunkScript.
  destruct (ChunkOptions.template options) as [t|].
  - unfold mbind, M_bind, bind, mret, M_ret, ret.
    destruct (templateSection_run (ChunkOptions.templateDir options) (fst (TEMPLATE_MAP t))
                "Intro" w) as (intro & ->).
    destruct (templateSection_run (ChunkOptions.templateDir options) (snd (TEMPLATE_MAP t))
                "Outro" w) as (outro & ->).
    eexists. split; [reflexivity|]. split; [apply Hnum|].
    apply numbered_keys_distinct, Hnum.
  - unfold mbind, M_bind, bind, mret, M_ret, ret.
    eexists. split; [reflexivity|]. split; [apply Hnum|].
    apply numbered_keys_distinct, Hnum.
Qed.

Lemma append_inv_head (a x y : string) : a +:+ x = a +:+ y -> x = y.
Proof. induction a as [|c a IH]; simpl; intros Heq; [done|]. simplify_eq. by apply IH. Qed.

(** No audio file of a pass is the manifest file: the [World] may keep
    them apart. *)
Lemma audio_path_not_manifest (options : RenderOptions.t) (s : Segment.t) :
  segmentFilePath options s <> cacheManifestPath (RenderOptions.outputDir options).
Proof.
  unfold segmentFilePath, cacheManifestPath, Path.join. intros Heq.
  do 2 apply append_inv_head in Heq.
  assert (Hd : dashless ".cache.json") by (repeat constructor; done).
  rewrite <- Heq in Hd. unfold segmentFileName, dashless in Hd.
  rewrite chars_append in Hd. apply Forall_app in Hd as [_ Hd].
  simpl in Hd. by apply Forall_cons in Hd as [? _].
Qed.

(** The fuel [S (length s)] that [autoChunk] gives [match_all] is enough:
    more fuel finds the same matches. *)
Lemma match_all_fuel (its : list Regex.item) :
  forall (f1 f2 : nat) (s : list ascii),
    length s < f1 -> length s < f2 ->
    Regex.match_all f1 its s = Regex.match_all f2 its s.
Proof.
  induction f1 as [|f1 IH]; intros [|f2] s H1 H2; try lia.
  destruct s as [|c s']; [done|]. simpl in *.
  destruct (Regex.match_here its false (c :: s')) as [[groups rest]|].
  - f_equal. destruct (length rest <? S (length s'))%nat eqn:Hlt.
    + apply Nat.ltb_lt in Hlt. apply IH; lia.
    + apply IH; lia.
  - apply IH; lia.
Qed.

(* ================================================================== *)
(** * The cache over the segments of a script                          *)
(* ================================================================== *)

(** C9: in a pass over the segments of a script that is not forced and
    completes, the saved manifest holds, under the key of every cached
    result, the very entry that the loaded manifest held (same hash, file
    name and duration); and the saved manifest differs from the loaded one
    only under keys of results that are not cached. *)
Theorem hits_keep_their_entries ffprobe segments client options w results w' :
  well_indexed segments ->
  renderSegments ffprobe segments client options w = (inr results, w') ->
  RenderOptions.force options = false ->
  (forall r, r ∈ results -> RenderResult.cached r = true ->
     exists entry,
       on_disk w !! segmentCacheKey (RenderResult.segment r) = Some entry
       /\ on_disk w' !! segmentCacheKey (RenderResult.segment r) = Some entry)
  /\ (forall k,
        (forall r, r ∈ results -> RenderResult.cached r = false ->
                   segmentCacheKey (RenderResult.segment r) <> k) ->
        on_disk w' !! k = on_disk w !! k).
Proof.
  intros Hidx Hrun Hforce.
  pose proof (well_indexed_keys_distinct _ Hidx) as Hnodup.
  destruct (renderSegments_ok _ _ _ _ _ _ _ Hrun) as (rs0 & saved & w1 & Hplan & Hnew & ->).
  destruct (renderNew_ok _ _ _ _ _ _ _ _ _ Hnew) as (Hsame & _ & _ & _ & _ & Hcache).
  assert (Hinit : initial_cache options w = on_disk w).
  { unfold initial_cache. by rewrite Hforce. }
  assert (Hkeys : forall k,
    (forall r, r ∈ results -> RenderResult.cached r = false ->
               segmentCacheKey (RenderResult.segment r) <> k) ->
    saved !! k = on_disk w !! k).
  { intros k Hno.
    destruct (Hcache k) as [[Heq _]|(r0 & d & Hr0 & Hmiss & Hk & _)].
    - by rewrite Heq, Hinit.
    - apply list_elem_of_lookup in Hr0 as [i Hi].
      destruct (Forall2_lookup_l _ _ _ _ _ Hsame Hi) as (r & Hr & Hs & _ & _ & Hc & _).
      destruct (Hno r); [by eapply list_elem_of_lookup_2|congruence|congruence]. }
  assert (Hseg : map RenderResult.segment results = segments).
  { rewrite <- (Planned_segments _ _ _ _ _ Hplan).
    clear -Hsame. induction Hsame as [|? ? ? ? (Hs & _) _ IH]; [done|].
    simpl. by rewrite IH, Hs. }
  split; [|exact Hkeys].
  intros r Hr Hhit.
  assert (Hentry : exists entry,
    on_disk w !! segmentCacheKey (RenderResult.segment r) = Some entry).
  { apply list_elem_of_lookup in Hr as [i Hi].
    destruct (Forall2_lookup_r _ _ _ _ _ Hsame Hi) as (r0 & Hr0 & Hs & _ & _ & Hc & _).
    destruct (Forall2_lookup_r _ _ _ _ _ Hplan Hr0) as (s & _ & Hp).
    rewrite Hs, (planned_segment _ _ _ _ _ Hp).
    destruct (planned_hit _ _ _ _ _ Hp) as (entry & Hlook & _); [congruence|].
    exists entry. by rewrite <- Hinit. }
  destruct Hentry as (entry & Hentry). exists entry. split; [done|].
  assert (Hdisk : on_disk (mkWorld (files w1) (Stored saved) (tts_log w1)) = saved)
    by done.
  rewrite Hdisk, <- Hentry. apply Hkeys. intros r2 Hr2 Hmiss Hk.
  rewrite <- Hseg, map_map in Hnodup.
  assert (r2 = r) as ->; [|congruence].
  by eapply (NoDup_map_inj_on _ results).
Qed.

(** C4: after a pass that completes over the segments of a script, a
    second pass that is not forced, over the same segments and output
    directory, finds every segment cached: the count of cached results is
    the count of segments.  It issues no synthesis call and leaves the
    world, call log included, as it was. *)
Theorem second_pass_all_cached ffprobe ffprobe2 segments client client2
    options options2 w results w1 :
  well_indexed segments ->
  renderSegments ffprobe segments client options w = (inr results, w1) ->
  RenderOptions.force options2 = false ->
  RenderOptions.outputDir options2 = RenderOptions.outputDir options ->
  exists results2,
    renderSegments ffprobe2 segments client2 options2 w1 = (inr results2, w1)
    /\ map RenderResult.segment results2 = segments
    /\ Forall (fun r => RenderResult.cached r = true) results2
    /\ length (filter (fun r => RenderResult.cached r = true) results2) = length segments.
Proof.
  intros Hidx Hrun Hforce2 Hdir.
  assert (Hcoh : key_coherent segments)
    by apply distinct_keys_coherent, well_indexed_keys_distinct, Hidx.
  destruct (renderSegments_ok _ _ _ _ _ _ _ Hrun) as (rs0 & saved & w0 & Hplan & Hnew & ->).
  destruct (renderNew_ok _ _ _ _ _ _ _ _ _ Hnew)
    as (Hsame & _ & _ & Hkeep & Hfresh & Hcache).
  set (w1 := mkWorld (files w0) (Stored saved) (tts_log w0)).
  destruct (renderSegments_run ffprobe2 client2 options2 segments w1)
    as (rs2 & Hplan2 & Heq).
  assert (Hinit : initial_cache options2 w1 = saved).
  { unfold initial_cache. by rewrite Hforce2. }
  rewrite Hinit in *.
  assert (Hpath : forall s, segmentFilePath options2 s = segmentFilePath options s).
  { intros s. unfold segmentFilePath. by rewrite Hdir. }
  (* every segment is a hit against the saved manifest *)
  assert (Hhit : forall s, s ∈ segments -> CacheHit options2 saved w1 s).
  { intros s [i Hi]%list_elem_of_lookup.
    destruct (Forall2_lookup_l _ _ _ _ _ Hplan Hi) as (r0 & Hr0 & Hp0).
    assert (Hin0 : r0 ∈ rs0) by (by eapply list_elem_of_lookup_2).
    destruct Hp0 as [Hseg0 Hname0 Hpath0 Hcached0 _ _].
    split; [done|]. rewrite Hpath. simpl.
    assert (Hfile : is_Some (files w0 !! segmentFilePath options s)).
    { destruct (RenderResult.cached r0) eqn:Hc0.
      - apply Hkeep.
        by destruct (proj1 Hcached0 eq_refl) as (_ & ? & _ & _ & _ & Hex).
      - rewrite <- Hpath0. by apply Hfresh. }
    destruct (Hcache (segmentCacheKey s)) as [[Heq0 Hno]|(rm & d & Hrm & Hmiss & Hk & Hsaved)].
    - destruct (RenderResult.cached r0) eqn:Hc0.
      + destruct (proj1 Hcached0 eq_refl) as (_ & entry & Hentry & Hh & Hf & _).
        exists entry. rewrite Heq0. by repeat split.
      + destruct (Hno r0 Hin0 Hc0). by rewrite Hseg0.
    - destruct (Planned_elem _ _ _ _ _ _ Hplan Hrm) as (sm & Hsm & [Hsegm Hnamem _ _ _ _]).
      rewrite Hsegm in *. rewrite Hnamem in Hsaved.
      destruct (Hcoh sm s Hsm (list_elem_of_lookup_2 _ _ _ Hi) Hk) as [Hh Hf].
      eexists. split; [exact Hsaved|]. simpl. by repeat split. }
  assert (Hall : Forall (fun r => RenderResult.cached r = true) rs2).
  { apply Forall_forall. intros r Hr.
    destruct (Planned_elem _ _ _ _ _ _ Hplan2 Hr) as (s & Hs & Hp).
    apply (planned_cached _ _ _ _ _ Hp). by apply Hhit. }
  exists rs2. rewrite Heq, (renderNew_all_cached _ _ _ _ _ _ Hall).
  repeat split; try done.
  - by eapply Planned_segments.
  - rewrite (Forall2_length _ _ _ Hplan2).
    f_equal. clear -Hall. induction Hall as [|r rs Hr _ IH]; [done|].
    rewrite filter_cons. destruct (decide _); [by f_equal|done].
Qed.

(* ================================================================== *)
(** * The properties on sample runs                                    *)
(* ================================================================== *)

Lemma cache_hit_iff_witness :
  exists results w',
    renderSegments no_ffprobe [seg_intro; seg_body] mock_client (opts false) warm_world
    = (inr results, w')
    /\ map RenderResult.cached results = [true; false]
    /\ exists calls, tts_log w' = tts_log warm_world ++ calls
         /\ map fst calls = requests_for (opts false) results.
Proof.
  eexists _, _. split; [vm_compute; reflexivity|].
  split; [reflexivity|].
  refine (proj2 (cache_hit_iff no_ffprobe [seg_intro; seg_body] mock_client (opts false)
                   warm_world _ _ _)).
  vm_compute. reflexivity.
Defined.

Lemma synthesis_failure_aborts_witness :
  let run := renderSegments no_ffprobe [seg_intro; seg_body; seg_outro] flaky_client
               (opts false) empty_world in
  (exists pre s post err,
     [seg_intro; seg_body; seg_outro] = pre ++ s :: post
     /\ fst run = inl ("Failed to render segment " +:+ JsString.dquote +:+ Segment.title s
                       +:+ JsString.dquote +:+ ": " +:+ err)
     /\ manifest (snd run) = manifest empty_world)
  /\ fst run = inl ("Failed to render segment " +:+ JsString.dquote +:+ "Body"
                    +:+ JsString.dquote +:+ ": Error: Rate limited (429)")
  /\ map fst (tts_log (snd run))
     = [TTSRequest.mk "Hello there." "voice-a" (Some "wav") None;
        TTSRequest.mk "The body." "voice-a" (Some "wav") None].
Proof.
  intros run.
  assert (Hrun : renderSegments no_ffprobe [seg_intro; seg_body; seg_outro] flaky_client
                   (opts false) empty_world = (fst run, snd run))
    by apply surjective_pairing.
  assert (Hlog : tts_log (snd run) = tts_log empty_world ++ tts_log (snd run))
    by reflexivity.
  assert (Hrej : exists call, call ∈ tts_log (snd run) /\ ~ is_inr (snd call)).
  { exists (request_of (opts false) seg_body, inl "Error: Rate limited (429)").
    split; [vm_compute; apply list_elem_of_further, list_elem_of_here|].
    simpl. tauto. }
  destruct (synthesis_failure_aborts _ _ _ _ _ _ _ _ Hrun Hlog Hrej)
    as (pre & s & post & err & H1 & H2 & _ & _ & H3).
  split; [by exists pre, s, post, err|].
  split; vm_compute; reflexivity.
Defined.

Lemma second_pass_all_cached_witness :
  well_indexed [seg_intro; seg_body]
  /\ exists results w1 results2,
       renderSegments no_ffprobe [seg_intro; seg_body] mock_client (opts true) warm_world
       = (inr results, w1)
       /\ renderSegments ffprobe_2_5 [seg_intro; seg_body] flaky_client (opts false) w1
          = (inr results2, w1)
       /\ Forall (fun r => RenderResult.cached r = true) results2.
Proof.
  assert (Hidx : well_indexed [seg_intro; seg_body]).
  { split; [repeat constructor|]. apply (bool_decide_unpack _). by vm_compute. }
  split; [exact Hidx|].
  eexists _, _.
  assert (Hrun : renderSegments no_ffprobe [seg_intro; seg_body] mock_client (opts true)
                   warm_world = (_, _)) by (vm_compute; reflexivity).
  destruct (second_pass_all_cached no_ffprobe ffprobe_2_5 _ mock_client flaky_client
              (opts true) (opts false) _ _ _ Hidx Hrun eq_refl eq_refl)
    as (results2 & Hrun2 & _ & Hall & _).
  exists results2. split; [exact Hrun|]. by split.
Defined.

Lemma manifest_keys_kept_unless_forced_witness :
  exists results w',
    renderSegments no_ffprobe [seg_intro; seg_body] mock_client (opts false) warm_world
    = (inr results, w')
    /\ (on_disk w' !! "009-old"
        = Some (CacheEntry.mk "eeeeeeeeeeeeeeee" "009-old.wav" 4)
        \/ exists s d, s ∈ [seg_intro; seg_body] /\ segmentCacheKey s = "009-old"
             /\ on_disk w' !! "009-old"
                = Some (CacheEntry.mk (Segment.hash s) (segmentFileName s) d)).
Proof.
  eexists _, _.
  assert (Hrun : renderSegments no_ffprobe [seg_intro; seg_body] mock_client (opts false)
                   warm_world = (_, _)) by (vm_compute; reflexivity).
  split; [exact Hrun|].
  destruct (manifest_keys_kept_unless_forced _ _ _ _ _ _ _ Hrun) as (_ & Hkeep & _).
  apply (Hkeep _ eq_refl eq_refl). by vm_compute.
Defined.

Lemma hits_keep_their_entries_witness :
  well_indexed [seg_intro; seg_body]
  /\ exists results w',
       renderSegments no_ffprobe [seg_intro; seg_body] mock_client (opts false) warm_world
       = (inr results, w')
       /\ map RenderResult.cached results = [true; false]
       /\ on_disk w' !! "001-intro" = on_disk warm_world !! "001-intro"
       /\ on_disk w' !! "009-old" = on_disk warm_world !! "009-old".
Proof.
  assert (Hidx : well_indexed [seg_intro; seg_body]).
  { split; [repeat constructor|]. apply (bool_decide_unpack _). by vm_compute. }
  split; [exact Hidx|].
  eexists _, _.
  assert (Hrun : renderSegments no_ffprobe [seg_intro; seg_body] mock_client (opts false)
                   warm_world = (_, _)) by (vm_compute; reflexivity).
  split; [exact Hrun|]. split; [reflexivity|].
  destruct (hits_keep_their_entries _ _ _ _ _ _ _ Hidx Hrun eq_refl) as [_ Hkeys].
  split; apply Hkeys; intros r Hr Hmiss;
    vm_compute in Hr; vm_compute;
    (apply elem_of_cons in Hr as [->|Hr]; [discriminate|]);
    (apply elem_of_cons in Hr as [->|Hr]; [discriminate|]);
    by apply elem_of_nil in Hr.
Defined.

(** The render pass relies on the invariant of segments and does not
    check it: after a first pass over [seg_intro; seg_intro_bis], two
    segments numbered 1 with one slug, the second pass finds the first of
    them changed and synthesizes it again. *)
Lemma second_pass_misses_on_shared_key :
  let segments := [seg_intro; seg_intro_bis] in
  let pass1 := renderSegments no_ffprobe segments mock_client (opts false) empty_world in
  let pass2 := renderSegments no_ffprobe segments mock_client (opts false) (snd pass1) in
  (exists results1, fst pass1 = inr results1)
  /\ (exists results2, fst pass2 = inr results2
        /\ map RenderResult.cached results2 = [false; true])
  /\ length (tts_log (snd pass1)) = 2
  /\ length (tts_log (snd pass2)) = 3.
Proof.
  split; [eexists; vm_compute; reflexivity|].
  split; [eexists; split; vm_compute; reflexivity|].
  split; vm_compute; reflexivity.
Qed.

(** C5 as stated fails for a forced pass: the key ["009-old"] of the
    manifest on disk is gone from the manifest the pass saves. *)
Lemma forced_pass_drops_keys :
  let run := renderSegments no_ffprobe [seg_intro; seg_body] mock_client (opts true)
               warm_world in
  (exists results, fst run = inr results)
  /\ is_Some (on_disk warm_world !! "009-old")
  /\ on_disk (snd run) !! "009-old" = None.
Proof.
  split; [eexists; vm_compute; reflexivity|].
  split; [eexists; vm_compute; reflexivity|].
  vm_compute. reflexivity.
Qed.

(** Likewise, outside the invariant a segment that is rendered can
    overwrite the entry of a cached one that shares its key: [seg_intro]
    is a hit, [seg_intro_bis] is rendered and overwrites the entry under
    their common key. *)
Lemma hit_entry_overwritten_on_shared_key :
  let run := renderSegments no_ffprobe [seg_intro; seg_intro_bis] mock_client (opts false)
               warm_world in
  (exists results, fst run = inr results
     /\ map RenderResult.cached results = [true; false])
  /\ segmentCacheKey seg_intro = "001-intro"
  /\ on_disk warm_world !! "001-intro"
     = Some (CacheEntry.mk "aaaaaaaaaaaaaaaa" "001-intro.wav" 1.5)
  /\ on_disk (snd run) !! "001-intro"
     = Some (CacheEntry.mk "dddddddddddddddd" "001-intro.wav" 3).
Proof.
  split; [eexists; split; vm_compute; reflexivity|].
  repeat split; vm_compute; reflexivity.
Qed.

(** C2 at a failing input: ffprobe measures 2.5 seconds where the TTS
    response estimated 3; the result carries 2.5 and the cache entry 3. *)
Theorem cache_entry_keeps_estimate :
  let run := renderSegments ffprobe_2_5 [seg_intro] mock_client (opts false) empty_world in
  fst run
  = inr [RenderResult.mk seg_intro "out/segments/001-intro.wav" "001-intro.wav" false 2.5]
  /\ on_disk (snd run) !! segmentCacheKey seg_intro
     = Some (CacheEntry.mk "aaaaaaaaaaaaaaaa" "001-intro.wav" 3).
Proof. split; vm_compute; reflexivity. Qed.

(** C6 at a failing input: a document with a first-level heading and no
    second-level heading.  No line is a ## heading, yet in headings mode
    [chunkScript] keeps the single section titled by the # heading, as a
    heading segment, although the text exceeds the limit of 20 characters
    and length-based chunking would split it in two. *)
Theorem h1_only_document_not_rechunked (sha256_hex : string -> string) :
  let options := ChunkOptions.mk mode_headings 20%float None None "templates" "voice-a" in
  Forall (fun line => Regex.capture Regex.h2 3 line = None) (split_lines h1_only_document)
  /\ fst (chunkScript sha256_hex h1_only_document options empty_world)
     = inr [Segment.mk 1 "My Video" "my-video"
              "First sentence here. Second sentence here." src_heading
              (contentHash sha256_hex
                 ["First sentence here. Second sentence here."; "voice-a"; "en"])]
  /\ map Section_.title (autoChunk h1_only_document 20%float)
     = ["Segment 1"; "Segment 2"].
Proof.
  intros options. split; [vm_compute; repeat constructor|].
  split; vm_compute; reflexivity.
Qed.

(** C7 at a failing input: the text after the last sentence terminator
    is dropped. *)
Theorem autoChunk_drops_unterminated_tail :
  autoChunk "First sentence. And a tail without a full stop" 20%float
  = [Section_.mk "Segment 1" "First sentence."].
Proof. vm_compute. reflexivity. Qed.

(* ================================================================== *)
(** * More on the render pass                                          *)
(* ================================================================== *)


Lemma world_after_log options (steps : list (RenderResult.t * TTSResponse.t)) :
  forall w,
  tts_log (world_after options w steps)
  = tts_log w ++ map (fun step => (request_of options (RenderResult.segment step.1),
                                   inr step.2)) steps.
Proof.
  unfold world_after.
  induction steps as [|step steps IH]; intros w; simpl; [by rewrite app_nil_r|].
  rewrite IH. simpl. by rewrite <- app_assoc.
Qed.

(** The results a successful second loop renders, the world it leaves
    and the durations it gives. *)
Lemma renderNew_durations ffprobe client options (rs : list RenderResult.t) :
  forall (c : CacheManifest) (w : World) rs' c' w',
  renderNew ffprobe client options rs c w = (inr (rs', c'), w') ->
  exists responses,
    let steps := zip (filter is_miss rs') responses in
    length responses = length (filter is_miss rs')
    /\ w' = world_after options w steps
    /\ forall i r response, steps !! i = Some (r, response) ->
         RenderResult.duration r
         = match ffprobe (world_after options w (take (S i) steps))
                         (RenderResult.filePath r) with
           | Some dur =>
               if is_nan dur then TTSResponse.duration_seconds response else dur
           | None => TTSResponse.duration_seconds response
           end.
Proof.
  induction rs as [|r rest IH]; intros c w rs' c' w' Hrun; simpl in Hrun.
  - run_m. simplify_eq. exists []. by repeat split.
  - destruct (RenderResult.cached r) eqn:Hc.
    + run_m.
      destruct (renderNew ffprobe client options rest c w) as [[err|[rest1 c1]] w1] eqn:Hrest;
        simplify_eq.
      destruct (IH _ _ _ _ _ Hrest) as (responses & Hlen & Hw & Hdur).
      exists responses.
      rewrite filter_cons. destruct (decide _) as [Hm|_]; [|done].
      unfold is_miss in Hm. by rewrite Hc in Hm.
    + unfold mbind, M_bind, bind in Hrun.
      destruct (VoiceAIClient.respond client w (request_of options (RenderResult.segment r)))
        as [err|response] eqn:Hresp.
      { rewrite (renderOne_fail _ _ _ _ _ _ _ Hresp) in Hrun. discriminate. }
      destruct (renderOne_ok ffprobe client options r c w response Hresp)
        as (probed & Hprobe & Hone).
      rewrite Hone in Hrun.
      destruct (renderNew ffprobe client options rest _ _) as [[err|[rest1 c1]] w1] eqn:Hrest;
        run_m; simplify_eq.
      destruct (IH _ _ _ _ _ Hrest) as (responses & Hlen & Hw & Hdur).
      exists (response :: responses).
      rewrite filter_cons. destruct (decide _) as [_|Hm].
      2:{ destruct Hm. unfold is_miss. simpl. by rewrite Hc. }
      simpl. split; [by rewrite Hlen|]. split; [exact Hw|].
      intros [|i] r0 response0 Hi; simpl in Hi.
      * simplify_eq. simpl.
        by destruct (ffprobe _ (RenderResult.filePath r)) as [dur|]; [destruct (is_nan dur)|].
      * by apply Hdur.
Qed.

(** After a pass that completes over segments with coherent keys, the
    saved manifest describes every segment and its audio file exists. *)
Lemma pass_leaves_entries ffprobe segments client options w results w1 :
  key_coherent segments ->
  renderSegments ffprobe segments client options w = (inr results, w1) ->
  forall s, s ∈ segments ->
    exists entry, on_disk w1 !! segmentCacheKey s = Some entry
      /\ CacheEntry.hash entry = Segment.hash s
      /\ CacheEntry.file entry = segmentFileName s
      /\ is_Some (files w1 !! segmentFilePath options s).
Proof.
  intros Hcoh Hrun s [i Hi]%list_elem_of_lookup.
  destruct (renderSegments_ok _ _ _ _ _ _ _ Hrun) as (rs0 & saved & w0 & Hplan & Hnew & ->).
  destruct (renderNew_ok _ _ _ _ _ _ _ _ _ Hnew)
    as (_ & _ & _ & Hkeep & Hfresh & Hcache).
  destruct (Forall2_lookup_l _ _ _ _ _ Hplan Hi) as (r0 & Hr0 & Hp0).
  assert (Hin0 : r0 ∈ rs0) by (by eapply list_elem_of_lookup_2).
  destruct Hp0 as [Hseg0 Hname0 Hpath0 Hcached0 _ _].
  assert (Hfile : is_Some (files w0 !! segmentFilePath options s)).
  { destruct (RenderResult.cached r0) eqn:Hc0.
    - apply Hkeep.
      by destruct (proj1 Hcached0 eq_refl) as (_ & ? & _ & _ & _ & Hex).
    - rewrite <- Hpath0. by apply Hfresh. }
  assert (Hdisk : forall f l, on_disk (mkWorld f (Stored saved) l) = saved) by done.
  rewrite Hdisk. simpl.
  destruct (Hcache (segmentCacheKey s)) as [[Heq0 Hno]|(rm & d & Hrm & Hmiss & Hk & Hsaved)].
  - destruct (RenderResult.cached r0) eqn:Hc0.
    + destruct (proj1 Hcached0 eq_refl) as (_ & entry & Hentry & Hh & Hf & _).
      exists entry. rewrite Heq0. by repeat split.
    + destruct (Hno r0 Hin0 Hc0). by rewrite Hseg0.
  - destruct (Planned_elem _ _ _ _ _ _ Hplan Hrm) as (sm & Hsm & [Hsegm Hnamem _ _ _ _]).
    rewrite Hsegm in *. rewrite Hnamem in Hsaved.
    destruct (Hcoh sm s Hsm (list_elem_of_lookup_2 _ _ _ Hi) Hk) as [Hh Hf].
    eexists. split; [exact Hsaved|]. simpl. by repeat split.
Qed.

(** X1: the results of a pass that completes follow the segments in
    order; each carries the computed file name and path, its audio file is
    on disk afterwards, and the saved manifest has an entry under its key. *)
Theorem completed_pass_leaves_every_segment_rendered
    ffprobe segments client options w results w' :
  renderSegments ffprobe segments client options w = (inr results, w') ->
  Forall2 (fun s r =>
             RenderResult.segment r = s
             /\ RenderResult.fileName r = segmentFileName s
             /\ RenderResult.filePath r = segmentFilePath options s
             /\ is_Some (files w' !! RenderResult.filePath r)
             /\ is_Some (on_disk w' !! segmentCacheKey s))
          segments results.
Proof.
  intros Hrun.
  destruct (renderSegments_ok _ _ _ _ _ _ _ Hrun) as (rs0 & saved & w1 & Hplan & Hnew & ->).
  destruct (renderNew_ok _ _ _ _ _ _ _ _ _ Hnew)
    as (Hsame & _ & _ & Hkeep & Hfresh & Hcache).
  apply Forall2_same_length_lookup. split.
  { rewrite (Forall2_length _ _ _ Hplan). apply (Forall2_length _ _ _ Hsame). }
  intros i s r Hs Hr.
  destruct (Forall2_lookup_l _ _ _ _ _ Hplan Hs) as (r0 & Hr0 & [Hseg Hname Hpath Hcached _ _]).
  destruct (Forall2_lookup_lr _ _ _ _ _ _ Hsame Hr0 Hr) as (Hs' & Hn' & Hp' & Hc' & _).
  assert (Hin0 : r0 ∈ rs0) by (by eapply list_elem_of_lookup_2).
  repeat split; simpl; try congruence.
  - rewrite Hp'. destruct (RenderResult.cached r0) eqn:Hc0.
    + apply Hkeep. rewrite Hpath.
      by destruct (proj1 Hcached eq_refl) as (_ & ? & _ & _ & _ & Hex).
    + by apply Hfresh.
  - assert (Hdisk : forall f l, on_disk (mkWorld f (Stored saved) l) = saved) by done.
    rewrite Hdisk.
    destruct (Hcache (segmentCacheKey s)) as [[Heq Hno]|(rm & d & _ & _ & _ & Hsaved)].
    + destruct (RenderResult.cached r0) eqn:Hc0.
      * rewrite Heq. destruct (proj1 Hcached eq_refl) as (_ & e & He & _). by exists e.
      * destruct (Hno r0 Hin0 Hc0). by rewrite Hseg.
    + by eexists.
Qed.

Lemma completed_pass_leaves_every_segment_rendered_witness :
  exists results w',
    renderSegments no_ffprobe [seg_intro; seg_body] mock_client (opts false) warm_world
    = (inr results, w')
    /\ map RenderResult.fileName results = ["001-intro.wav"; "002-body.wav"]
    /\ length results = 2.
Proof.
  eexists _, _.
  assert (Hrun : renderSegments no_ffprobe [seg_intro; seg_body] mock_client (opts false)
                   warm_world = (_, _)) by (vm_compute; reflexivity).
  split; [exact Hrun|]. split; [reflexivity|].
  symmetry.
  exact (Forall2_length _ _ _ (completed_pass_leaves_every_segment_rendered _ _ _ _ _ _ _ Hrun)).
Defined.

(** X2: a pass that is forced, or that finds no manifest or one that does
    not parse, treats every segment as new: no result is cached, and the
    synthesis calls are one per segment, in order, each asking for the
    text of the segment in the voice and language of the options, as
    [wav]. *)
Theorem forced_or_cold_pass_renders_all ffprobe segments client options w results w' :
  RenderOptions.force options = true \/ cold w ->
  renderSegments ffprobe segments client options w = (inr results, w') ->
  Forall (fun r => RenderResult.cached r = false) results
  /\ exists calls, tts_log w' = tts_log w ++ calls
       /\ map fst calls
          = map (fun s => TTSRequest.mk (Segment.text s) (RenderOptions.voiceId options)
                                        (Some "wav") (RenderOptions.language options))
                segments.
Proof.
  intros Hcold Hrun.
  assert (Hempty : initial_cache options w = ∅).
  { unfold initial_cache, on_disk.
    destruct Hcold as [->|[->| ->]]; [done|by destruct (RenderOptions.force _)..]. }
  destruct (renderSegments_ok _ _ _ _ _ _ _ Hrun) as (rs0 & saved & w1 & Hplan & Hnew & ->).
  destruct (renderNew_ok _ _ _ _ _ _ _ _ _ Hnew)
    as (Hsame & (calls & Hlog & Hreq & _) & _).
  rewrite Hempty in Hplan.
  assert (Hmiss0 : Forall (fun r => RenderResult.cached r = false) rs0).
  { apply Forall_forall. intros r0 Hr0.
    destruct (Planned_elem _ _ _ _ _ _ Hplan Hr0) as (s & _ & Hp).
    destruct (RenderResult.cached r0) eqn:Hc; [|done].
    destruct (proj1 (planned_cached _ _ _ _ _ Hp) Hc) as (_ & e & He & _).
    by rewrite lookup_empty in He. }
  split.
  - clear -Hsame Hmiss0. induction Hsame as [|r r' ? ? (_ & _ & _ & Hc & _) _ IH]; [done|].
    apply Forall_cons in Hmiss0 as [Hr Hrest].
    constructor; [congruence|by apply IH].
  - exists calls. split; [done|]. rewrite Hreq.
    change (requests_for options rs0 = map (request_of options) segments).
    rewrite <- (Planned_segments _ _ _ _ _ Hplan).
    clear -Hmiss0. induction Hmiss0 as [|r rs Hr _ IH]; [done|].
    rewrite requests_for_miss by done. simpl. by rewrite IH.
Qed.

Lemma forced_or_cold_pass_renders_all_witness :
  exists results w',
    renderSegments no_ffprobe [seg_intro; seg_body] mock_client (opts true) warm_world
    = (inr results, w')
    /\ Forall (fun r => RenderResult.cached r = false) results
    /\ map fst (tts_log w')
       = [TTSRequest.mk "Hello there." "voice-a" (Some "wav") None;
          TTSRequest.mk "The body." "voice-a" (Some "wav") None].
Proof.
  eexists _, _.
  assert (Hrun : renderSegments no_ffprobe [seg_intro; seg_body] mock_client (opts true)
                   warm_world = (_, _)) by (vm_compute; reflexivity).
  split; [exact Hrun|].
  destruct (forced_or_cold_pass_renders_all no_ffprobe _ mock_client (opts true) _ _ _
              (or_introl eq_refl) Hrun) as (Hall & calls & Hlog & Hreq).
  split; [exact Hall|].
  rewrite Hlog. simpl. exact Hreq.
Defined.



(** X4: in a pass that completes, the results that were rendered pair off,
    in order, with the synthesis calls of the pass, each of which resolved,
    and the files of the pass are the audio of these responses, written in
    this order.  The duration of such a result is the number ffprobe
    reports for its file right after the file was written (the files of
    the results before it written, those after it not yet), and the
    estimate of the response when ffprobe fails or reports NaN. *)
Theorem rendered_durations ffprobe segments client options w results w' :
  renderSegments ffprobe segments client options w = (inr results, w') ->
  exists responses,
    let steps := zip (filter is_miss results) responses in
    length responses = length (filter is_miss results)
    /\ tts_log w'
       = tts_log w ++ map (fun step => (request_of options (RenderResult.segment step.1),
                                        inr step.2)) steps
    /\ files w' = files (world_after options w steps)
    /\ forall i r response, steps !! i = Some (r, response) ->
         RenderResult.duration r
         = match ffprobe (world_after options w (take (S i) steps))
                         (RenderResult.filePath r) with
           | Some dur =>
               if is_nan dur then TTSResponse.duration_seconds response else dur
           | None => TTSResponse.duration_seconds response
           end.
Proof.
  intros Hrun.
  destruct (renderSegments_ok _ _ _ _ _ _ _ Hrun) as (rs0 & saved & w1 & Hplan & Hnew & ->).
  destruct (renderNew_durations _ _ _ _ _ _ _ _ _ Hnew) as (responses & Hlen & Hw & Hdur).
  exists responses. simpl. split; [exact Hlen|]. split; [|split; [by rewrite Hw|exact Hdur]].
  rewrite Hw. apply world_after_log.
Qed.

Lemma rendered_durations_witness :
  exists results w' response,
    renderSegments ffprobe_2_5 [seg_intro; seg_body] mock_client (opts false) warm_world
    = (inr results, w')
    /\ map RenderResult.cached results = [true; false]
    /\ tts_log w' = [(request_of (opts false) seg_body, inr response)]
    /\ TTSResponse.duration_seconds response = 3%float
    /\ map RenderResult.duration results = [1.5%float; 2.5%float].
Proof.
  eexists _, _.
  assert (Hrun : renderSegments ffprobe_2_5 [seg_intro; seg_body] mock_client (opts false)
                   warm_world = (_, _)) by (vm_compute; reflexivity).
  destruct (rendered_durations _ _ _ _ _ _ _ Hrun) as (responses & Hlen & Hlog & _ & Hdur).
  destruct responses as [|response [|? ?]]; try discriminate Hlen.
  exists response. split; [exact Hrun|]. split; [reflexivity|].
  split; [exact Hlog|].
  simpl in Hlog. injection Hlog as <-. split; reflexivity.
Defined.

(** X5: after a pass that completes over segments with pairwise distinct
    keys, the saved manifest holds, under every segment's key, an entry
    with that segment's hash and file name, and the segment's audio file
    is on disk. *)
Theorem manifest_describes_segments ffprobe segments client options w results w' :
  NoDup (map segmentCacheKey segments) ->
  renderSegments ffprobe segments client options w = (inr results, w') ->
  forall s, s ∈ segments ->
    exists entry, on_disk w' !! segmentCacheKey s = Some entry
      /\ CacheEntry.hash entry = Segment.hash s
      /\ CacheEntry.file entry = segmentFileName s
      /\ is_Some (files w' !! segmentFilePath options s).
Proof.
  intros Hnd Hrun. eapply pass_leaves_entries; [|exact Hrun].
  by apply distinct_keys_coherent.
Qed.

Lemma manifest_describes_segments_witness :
  exists results w' entry,
    renderSegments no_ffprobe [seg_intro; seg_body] mock_client (opts false) empty_world
    = (inr results, w')
    /\ on_disk w' !! segmentCacheKey seg_body = Some entry
    /\ CacheEntry.hash entry = Segment.hash seg_body.
Proof.
  eexists _, _.
  assert (Hrun : renderSegments no_ffprobe [seg_intro; seg_body] mock_client (opts false)
                   empty_world = (_, _)) by (vm_compute; reflexivity).
  assert (Hnd : NoDup (map segmentCacheKey [seg_intro; seg_body]))
    by (apply (bool_decide_unpack _); by vm_compute).
  assert (Hin : seg_body ∈ [seg_intro; seg_body])
    by apply list_elem_of_further, list_elem_of_here.
  destruct (manifest_describes_segments _ _ _ _ _ _ _ Hnd Hrun seg_body Hin)
    as (entry & He & Hh & _).
  exists entry. split; [exact Hrun|]. by split.
Defined.

(** After a pass that completed over segments with distinct keys, what
    the first loop of a later pass, not forced, decides for a segment in
    the place of [s]: cached exactly when the hash is that of [s]. *)
Lemma later_plan_verdict ffprobe segments client options options2 w results w1 s s2 r0 :
  NoDup (map segmentCacheKey segments) ->
  renderSegments ffprobe segments client options w = (inr results, w1) ->
  RenderOptions.force options2 = false ->
  RenderOptions.outputDir options2 = RenderOptions.outputDir options ->
  s ∈ segments -> same_place s s2 ->
  Planned options2 (on_disk w1) w1 s2 r0 ->
  RenderResult.cached r0 = true <-> Segment.hash s2 = Segment.hash s.
Proof.
  intros Hnd Hrun Hforce2 Hdir Hs (Hidx & Hslug & Htitle) [_ _ _ Hcached _ _].
  destruct (pass_leaves_entries _ _ _ _ _ _ _ (distinct_keys_coherent _ Hnd) Hrun s Hs)
    as (entry & Hentry & Hh & Hf & Hfile).
  assert (Hkey : segmentCacheKey s2 = segmentCacheKey s).
  { unfold segmentCacheKey. by rewrite Hidx, Hslug. }
  assert (Hname : segmentFileName s2 = segmentFileName s).
  { unfold segmentFileName. by rewrite Hidx, Hslug, Htitle. }
  assert (Hpath : segmentFilePath options2 s2 = segmentFilePath options s).
  { unfold segmentFilePath. by rewrite Hdir, Hname. }
  rewrite Hcached. unfold CacheHit. rewrite Hkey, Hname, Hpath. split.
  - intros (_ & e & He & Hhe & _). congruence.
  - intros Hhash. split; [done|]. exists entry. repeat split; try done. congruence.
Qed.

(** X6: take a pass that completes over segments with pairwise distinct
    keys, then change the text and hash of some of them, keeping index,
    slug and title.  In a second pass, not forced, on the same output
    directory, a segment is cached exactly when its hash did not change. *)
Theorem second_pass_misses_exactly_changed
    ffprobe ffprobe2 segments segments2 client client2 options options2
    w results w1 results2 w2 :
  NoDup (map segmentCacheKey segments) ->
  renderSegments ffprobe segments client options w = (inr results, w1) ->
  Forall2 same_place segments segments2 ->
  RenderOptions.force options2 = false ->
  RenderOptions.outputDir options2 = RenderOptions.outputDir options ->
  renderSegments ffprobe2 segments2 client2 options2 w1 = (inr results2, w2) ->
  Forall3 (fun s s2 r2 =>
             RenderResult.segment r2 = s2
             /\ (RenderResult.cached r2 = true <-> Segment.hash s2 = Segment.hash s))
          segments segments2 results2.
Proof.
  intros Hnd Hrun Hplace Hforce2 Hdir Hrun2.
  pose proof (fun s s2 r0 => later_plan_verdict _ _ _ _ options2 _ _ _ s s2 r0
                               Hnd Hrun Hforce2 Hdir) as Hverdict.
  destruct (renderSegments_ok _ _ _ _ _ _ _ Hrun2) as (rs2 & saved2 & w3 & Hplan2 & Hnew2 & ->).
  destruct (renderNew_ok _ _ _ _ _ _ _ _ _ Hnew2) as (Hsame2 & _).
  assert (Hinit : initial_cache options2 w1 = on_disk w1).
  { unfold initial_cache. by rewrite Hforce2. }
  rewrite Hinit in Hplan2. clear Hrun Hrun2 Hnew2 Hinit Hnd.
  revert rs2 results2 Hplan2 Hsame2.
  induction Hplace as [|s s2 segs segs2 Hsame_place _ IH];
    intros rs2 results2 Hplan2 Hsame2.
  - apply Forall2_nil_inv_l in Hplan2 as ->. apply Forall2_nil_inv_l in Hsame2 as ->.
    constructor.
  - apply Forall2_cons_inv_l in Hplan2 as (r0 & rs2' & Hp & Hplan2 & ->).
    apply Forall2_cons_inv_l in Hsame2 as (r2 & res2' & (Hs' & _ & _ & Hc' & _) & Hsame2 & ->).
    constructor.
    2:{ apply (IH (fun s0 s02 r00 Hs0 =>
                     Hverdict s0 s02 r00 (list_elem_of_further _ _ _ Hs0)) _ _ Hplan2 Hsame2). }
    split; [rewrite Hs'; apply (planned_segment _ _ _ _ _ Hp)|].
    rewrite Hc'. by apply (Hverdict s s2 r0 (list_elem_of_here _ _)).
Qed.

Lemma second_pass_misses_exactly_changed_witness :
  let pass1 := renderSegments no_ffprobe [seg_intro; seg_body] mock_client (opts false)
                 empty_world in
  let pass2 := renderSegments no_ffprobe [seg_intro; seg_body_edited] mock_client
                 (opts false) (snd pass1) in
  exists results results2,
    fst pass1 = inr results
    /\ fst pass2 = inr results2
    /\ Forall3 (fun s s2 r2 =>
                  RenderResult.segment r2 = s2
                  /\ (RenderResult.cached r2 = true <-> Segment.hash s2 = Segment.hash s))
               [seg_intro; seg_body] [seg_intro; seg_body_edited] results2.
Proof.
  intros pass1 pass2.
  assert (H1 : exists results, fst pass1 = inr results) by (eexists; vm_compute; reflexivity).
  assert (H2 : exists results2, fst pass2 = inr results2) by (eexists; vm_compute; reflexivity).
  destruct H1 as [results H1]. destruct H2 as [results2 H2].
  exists results, results2. split; [exact H1|]. split; [exact H2|].
  assert (Hnd : NoDup (map segmentCacheKey [seg_intro; seg_body]))
    by (apply (bool_decide_unpack _); by vm_compute).
  assert (Hplace : Forall2 same_place [seg_intro; seg_body] [seg_intro; seg_body_edited])
    by (repeat constructor).
  apply (second_pass_misses_exactly_changed no_ffprobe no_ffprobe _ _ mock_client mock_client
           (opts false) (opts false) empty_world results (snd pass1) results2 (snd pass2)
           Hnd); [|exact Hplace|reflexivity|reflexivity|].
  - rewrite <- H1. apply surjective_pairing.
  - rewrite <- H2. apply surjective_pairing.
Defined.

(** X21: for the segments that [chunkScript] returns, the cache round
    trip holds without further condition: after a pass that completes, a
    second pass, not forced, over the same segments and output directory
    finds every segment cached and leaves the world, call log included,
    as it was. *)
Theorem chunked_script_second_pass_all_cached
    sha256_hex content chunk_options w0 w0'
    ffprobe ffprobe2 segments client client2 options options2 w results w1 :
  chunkScript sha256_hex content chunk_options w0 = (inr segments, w0') ->
  renderSegments ffprobe segments client options w = (inr results, w1) ->
  RenderOptions.force options2 = false ->
  RenderOptions.outputDir options2 = RenderOptions.outputDir options ->
  exists results2,
    renderSegments ffprobe2 segments client2 options2 w1 = (inr results2, w1)
    /\ Forall (fun r => RenderResult.cached r = true) results2.
Proof.
  intros Hchunk Hrun Hforce2 Hdir.
  destruct (chunkScript_keys_distinct sha256_hex content chunk_options w0)
    as (segments' & Hchunk' & _ & Hnd).
  rewrite Hchunk in Hchunk'. injection Hchunk' as Hsegs _. subst segments'.
  destruct (renderSegments_run ffprobe2 client2 options2 segments w1)
    as (rs2 & Hplan2 & Heq).
  assert (Hinit : initial_cache options2 w1 = on_disk w1).
  { unfold initial_cache. by rewrite Hforce2. }
  rewrite Hinit in *.
  assert (Hall : Forall (fun r => RenderResult.cached r = true) rs2).
  { apply Forall_forall. intros r0 Hr0.
    destruct (Planned_elem _ _ _ _ _ _ Hplan2 Hr0) as (s & Hs & Hp).
    apply (later_plan_verdict _ _ _ _ options2 _ _ _ s s r0 Hnd Hrun Hforce2 Hdir Hs);
      [by repeat split|done|done]. }
  exists rs2. split; [|done].
  rewrite Heq, (renderNew_all_cached _ _ _ _ _ _ Hall).
  destruct (renderSegments_ok _ _ _ _ _ _ _ Hrun) as (? & saved & w2 & _ & _ & ->).
  reflexivity.
Qed.

Lemma chunked_script_second_pass_all_cached_witness :
  let pass1 := renderSegments no_ffprobe h1_only_segments mock_client (opts true)
                 empty_world in
  chunkScript (fun s => s) h1_only_document sample_chunk_options empty_world
  = (inr h1_only_segments, empty_world)
  /\ exists results results2,
       fst pass1 = inr results
       /\ renderSegments ffprobe_2_5 h1_only_segments flaky_client (opts false) (snd pass1)
          = (inr results2, snd pass1)
       /\ Forall (fun r => RenderResult.cached r = true) results2.
Proof.
  intros pass1.
  assert (Hchunk : chunkScript (fun s => s) h1_only_document sample_chunk_options
                     empty_world = (inr h1_only_segments, empty_world))
    by (vm_compute; reflexivity).
  split; [exact Hchunk|].
  assert (H1 : exists results, fst pass1 = inr results) by (eexists; vm_compute; reflexivity).
  destruct H1 as [results H1]. exists results.
  assert (Hrun : renderSegments no_ffprobe h1_only_segments mock_client (opts true)
                   empty_world = (inr results, snd pass1)).
  { rewrite <- H1. apply surjective_pairing. }
  destruct (chunked_script_second_pass_all_cached _ _ _ _ _ no_ffprobe ffprobe_2_5 _
              mock_client flaky_client (opts true) (opts false) _ _ _
              Hchunk Hrun eq_refl eq_refl) as (results2 & H2 & Hall).
  exists results2. split; [exact H1|]. by split.
Defined.

(* ================================================================== *)
(** * Strings, trimming and the sentence pattern                       *)
(* ================================================================== *)

Lemma of_chars_chars (s : string) : JsString.of_chars (JsString.chars s) = s.
Proof. apply string_of_list_ascii_of_string. Qed.

Lemma chars_of_chars (l : list ascii) : JsString.chars (JsString.of_chars l) = l.
Proof. apply list_ascii_of_string_of_list_ascii. Qed.

Lemma length_chars (s : string) : length (JsString.chars s) = String.length s.
Proof. induction s as [|c s IH]; [done|]. simpl. by rewrite IH. Qed.

Lemma length_of_chars (l : list ascii) : String.length (JsString.of_chars l) = length l.
Proof. by rewrite <- length_chars, chars_of_chars. Qed.

Lemma length_append (a b : string) :
  String.length (a +:+ b) = String.length a + String.length b.
Proof. by rewrite <- !length_chars, chars_append, length_app. Qed.

Lemma elem_of_rev {A} (l : list A) (x : A) : x ∈ rev l <-> x ∈ l.
Proof. rewrite !list_elem_of_In. symmetry. apply in_rev. Qed.

Lemma drop_while_length {A} (p : A -> bool) (l : list A) :
  length (drop_while p l) <= length l.
Proof. induction l as [|x l IH]; simpl; [done|]. destruct (p x); simpl; lia. Qed.

Lemma drop_while_keeps {A} (p : A -> bool) (l : list A) (x : A) :
  x ∈ l -> p x = false -> x ∈ drop_while p l.
Proof.
  induction l as [|y l IH]; intros Hin Hx; simpl; [done|].
  destruct (p y) eqn:Hy; [|done].
  apply elem_of_cons in Hin as [->|Hin]; [congruence|by apply IH].
Qed.

Lemma drop_while_sub {A} (p : A -> bool) (l : list A) (x : A) :
  x ∈ drop_while p l -> x ∈ l.
Proof.
  induction l as [|y l IH]; simpl; [done|].
  destruct (p y); [|done]. intros Hin. by apply list_elem_of_further, IH.
Qed.

Lemma drop_while_head {A} (p : A -> bool) (l : list A) (x : A) rest :
  drop_while p l = x :: rest -> p x = false.
Proof.
  induction l as [|y l IH]; simpl; [done|].
  destruct (p y) eqn:Hy; [done|]. intros. by simplify_eq.
Qed.

Lemma length_trim (s : string) : String.length (trim s) <= String.length s.
Proof.
  unfold trim. rewrite length_of_chars, length_rev.
  etrans; [apply drop_while_length|]. rewrite length_rev.
  etrans; [apply drop_while_length|]. by rewrite length_chars.
Qed.

(** [trim] leaves a string empty exactly when it has only white space. *)
Lemma truthy_trim_solid (s : string) : truthy (trim s) = true <-> solid s.
Proof.
  unfold truthy, trim. rewrite length_of_chars, length_rev. split.
  - intros Hlen.
    destruct (drop_while Char.isSpace (rev (drop_while Char.isSpace (JsString.chars s))))
      as [|c rest] eqn:Hd; [done|].
    exists c. split; [|by eapply drop_while_head].
    apply (drop_while_sub Char.isSpace), elem_of_rev, (drop_while_sub Char.isSpace).
    rewrite Hd. apply list_elem_of_here.
  - intros (c & Hin & Hc).
    assert (Hk : c ∈ drop_while Char.isSpace
                       (rev (drop_while Char.isSpace (JsString.chars s)))).
    { apply drop_while_keeps; [|done]. apply elem_of_rev. by apply drop_while_keeps. }
    destruct (drop_while _ (rev _)); [by apply elem_of_nil in Hk|done].
Qed.

Lemma solid_append_r (a b : string) : solid b -> solid (a +:+ b).
Proof.
  intros (c & Hin & Hc). exists c. split; [|done].
  rewrite chars_append. apply elem_of_app. by right.
Qed.

Lemma terminal_not_space (c : ascii) : Char.isTerminal c = true -> Char.isSpace c = false.
Proof. destruct c as [[] [] [] [] [] [] [] []]; by vm_compute. Qed.

Lemma first_down_Some {A} (f : nat -> option A) (lo hi : nat) (r : A) :
  Regex.first_down f lo hi = Some r -> exists k, lo <= k <= hi /\ f k = Some r.
Proof.
  induction hi as [|hi IH]; simpl.
  - destruct (0 <? lo)%nat eqn:Hlt; [done|]. apply Nat.ltb_ge in Hlt.
    destruct (f 0) eqn:Hf; [|done]. intros; simplify_eq. exists 0. split; [lia|done].
  - destruct (S hi <? lo)%nat eqn:Hlt; [done|]. apply Nat.ltb_ge in Hlt.
    destruct (f (S hi)) eqn:Hf.
    + intros; simplify_eq. exists (S hi). split; [lia|done].
    + intros (k & Hk & Hfk)%IH. exists k. split; [lia|done].
Qed.

Lemma take_while_length {A} (p : A -> bool) (l : list A) :
  length (take_while p l) <= length l.
Proof. induction l as [|x l IH]; simpl; [done|]. destruct (p x); simpl; lia. Qed.

Lemma take_in_run {A} (p : A -> bool) (l : list A) (k : nat) :
  k <= length (take_while p l) -> Forall (fun x => p x = true) (take k l).
Proof.
  revert k. induction l as [|x l IH]; intros [|k] Hk; simpl in *; try done.
  destruct (p x) eqn:Hx; simpl in Hk; [|lia].
  constructor; [done|]. apply IH. lia.
Qed.

(** A match takes, for each item in turn, characters of the item's class,
    at least one unless the item is starred, and leaves the rest. *)
Lemma match_here_sound (its : list Regex.item) (to_end : bool) :
  forall (s : list ascii) groups rest,
  Regex.match_here its to_end s = Some (groups, rest) ->
  s = concat groups ++ rest
  /\ Forall2 (fun it g =>
                Forall (fun c => Regex.cls it c = true) g
                /\ (Regex.q it <> Regex.Star -> g <> []))
             its groups.
Proof.
  induction its as [|it its IH]; intros s groups rest Hm.
  - simpl in Hm. destruct to_end; [destruct s|]; simplify_eq; by split.
  - assert (Hk : exists k groups',
      k <= length (take_while (Regex.cls it) s)
      /\ (Regex.q it <> Regex.Star -> 1 <= k)
      /\ Regex.match_here its to_end (drop k s) = Some (groups', rest)
      /\ groups = take k s :: groups').
    { simpl in Hm.
      destruct (Regex.q it) eqn:Hq; simpl in Hm;
        apply first_down_Some in Hm as (k & Hk & Hm);
        destruct (Regex.match_here its to_end (drop k s)) as [[groups' rest']|] eqn:Hrec;
        try done; simplify_eq; exists k, groups'; repeat split; try done;
        try lia; destruct (length (take_while (Regex.cls it) s)); lia. }
    destruct Hk as (k & groups' & Hkn & Hk1 & Hrec & ->).
    destruct (IH _ _ _ Hrec) as (Hs & Hall).
    split.
    + simpl. rewrite <- app_assoc, <- Hs. by rewrite take_drop.
    + constructor; [|done]. split; [by apply take_in_run|].
      intros Hstar Hnil. specialize (Hk1 Hstar).
      pose proof (take_while_length (Regex.cls it) s).
      apply (f_equal length) in Hnil. rewrite length_take in Hnil. simpl in Hnil. lia.
Qed.

Lemma match_all_sound (its : list Regex.item) (fuel : nat) :
  forall (s : list ascii) m,
  m ∈ Regex.match_all fuel its s ->
  exists s' groups rest, Regex.match_here its false s' = Some (groups, rest)
                         /\ m = concat groups.
Proof.
  induction fuel as [|fuel IH]; intros s m Hm; simpl in Hm; [by apply elem_of_nil in Hm|].
  destruct s as [|c s0]; [by apply elem_of_nil in Hm|].
  destruct (Regex.match_here its false (c :: s0)) as [[groups rest]|] eqn:Hh.
  - apply elem_of_cons in Hm as [->|Hm]; [by eauto|by eapply IH].
  - by eapply IH.
Qed.

(** Every sentence unit has a character that is not white space. *)
Lemma sentences_solid (text : string) :
  solid text -> Forall solid (sentences_of text).
Proof.
  intros Htext. unfold sentences_of.
  destruct (Regex.match_all _ _ _) as [|m ms] eqn:Hall; [by repeat constructor|].
  apply Forall_forall. intros sentence (g & -> & Hg)%list_elem_of_fmap.
  rewrite <- Hall in Hg.
  apply match_all_sound in Hg as (s' & groups & rest & Hm & ->).
  apply match_here_sound in Hm as (_ & Hgroups).
  unfold Regex.sentence in Hgroups.
  apply Forall2_cons_inv_l in Hgroups as (g1 & gs1 & _ & Hgroups & ->).
  apply Forall2_cons_inv_l in Hgroups as (g2 & gs2 & (Hterm & Hne) & _ & ->).
  destruct g2 as [|c g2]; [by destruct Hne|].
  apply Forall_cons in Hterm as [Hc _]. simpl in Hc.
  exists c. split; [|by apply terminal_not_space].
  rewrite chars_of_chars. simpl. apply elem_of_app. right. apply list_elem_of_here.
Qed.

Lemma trim_keeps_solid (s : string) : solid s -> solid (trim s).
Proof.
  intros (c & Hin & Hc). exists c. split; [|done].
  unfold trim. rewrite chars_of_chars.
  apply elem_of_rev, drop_while_keeps; [|done].
  apply elem_of_rev. by apply drop_while_keeps.
Qed.

Lemma truthy_length (s : string) : truthy s = true <-> 0 < String.length s.
Proof.
  unfold truthy. destruct (String.length s =? 0)%nat eqn:H; simpl.
  - apply Nat.eqb_eq in H. split; [done|lia].
  - apply Nat.eqb_neq in H. split; [lia|done].
Qed.

Lemma length_zero_empty (s : string) : String.length s = 0 -> s = "".
Proof. by destruct s. Qed.

Lemma solid_truthy (s : string) : solid s -> truthy s = true.
Proof.
  intros (c & Hc & _). destruct s; [by apply elem_of_nil in Hc|done].
Qed.

(* ================================================================== *)
(** * Lengths against the character limit                              *)
(* ================================================================== *)

Lemma int_gt_false (n : nat) (x : float) :
  JsNumber.int_gt n x = false <-> JsNumber.compare_int (Z.of_nat n) x <> Some Gt.
Proof.
  unfold JsNumber.int_gt.
  destruct (JsNumber.compare_int _ x) as [[]|]; split; congruence.
Qed.


(** What is not longer than the limit has nothing shorter that is. *)
Lemma compare_int_mono (n n' : Z) (x : float) :
  (n' <= n)%Z ->
  JsNumber.compare_int n x <> Some Gt -> JsNumber.compare_int n' x <> Some Gt.
Proof.
  intros Hle. unfold JsNumber.compare_int.
  destruct (Prim2SF x) as [s|s| |s m e]; try done.
  - intros Hn Hn'. apply Hn. f_equal.
    injection Hn' as Hn'. apply Z.compare_gt_iff in Hn'. apply Z.compare_gt_iff. lia.
  - destruct (0 <=? e)%Z.
    + intros Hn Hn'. apply Hn. f_equal.
      injection Hn' as Hn'. apply Z.compare_gt_iff in Hn'. apply Z.compare_gt_iff. lia.
    + intros Hn Hn'. apply Hn. f_equal.
      injection Hn' as Hn'. apply Z.compare_gt_iff in Hn'. apply Z.compare_gt_iff.
      assert (0 <= 2 ^ (- e))%Z by (apply Z.pow_nonneg; lia).
      nia.
Qed.

Lemma int_gt_nan (n : nat) : JsNumber.int_gt n nan = false.
Proof. reflexivity. Qed.

Lemma int_le_nan (n : nat) : JsNumber.int_le n nan = false.
Proof. reflexivity. Qed.

Lemma int_gt_mono (n n' : nat) (x : float) :
  n' <= n -> JsNumber.int_gt n x = false -> JsNumber.int_gt n' x = false.
Proof.
  rewrite !int_gt_false. intros Hle. apply compare_int_mono. lia.
Qed.

(* ================================================================== *)
(** * The loop of autoChunk                                            *)
(* ================================================================== *)

Lemma autoChunk_unfold (content : string) (maxChars : float) :
  autoChunk content maxChars
  = if JsNumber.int_le (String.length (trim content)) maxChars
    then [Section_.mk "Segment 1" (trim content)]
    else autoChunk_finish
           (fold_left (AutoChunk.step maxChars) (sentences_of (trim content))
                      (AutoChunk.mk [] "" 1)).
Proof. reflexivity. Qed.

Lemma chunking_step sentences maxChars st sentence :
  chunking sentences maxChars st -> sentence ∈ sentences -> solid sentence ->
  chunking sentences maxChars (AutoChunk.step maxChars st sentence)
  /\ solid (AutoChunk.current (AutoChunk.step maxChars st sentence)).
Proof.
  intros [Hnum Htitles Hsizes Hcur Htexts Hsolid] Hin Hs. unfold AutoChunk.step.
  destruct (JsNumber.int_gt
              (String.length (AutoChunk.current st) + String.length sentence) maxChars
            && (0 <? String.length (AutoChunk.current st))%nat) eqn:Hpush; simpl.
  - apply andb_true_iff in Hpush as [Hover Hpos].
    apply Nat.ltb_lt in Hpos.
    assert (Hcs : solid (AutoChunk.current st)).
    { destruct Hsolid as [Hempty|?]; [|done]. rewrite Hempty in Hpos. simpl in Hpos. lia. }
    assert (Hne : AutoChunk.current st <> "").
    { intros Hempty. rewrite Hempty in Hpos. simpl in Hpos. lia. }
    split; [|done]. constructor; simpl.
    + rewrite length_app. simpl. lia.
    + intros i sec Hi. apply lookup_app_Some in Hi as [Hi|[Hge Hi]]; [by apply Htitles|].
      apply list_lookup_singleton_Some in Hi as [Hi <-]. simpl.
      rewrite Hnum. f_equal. f_equal. lia.
    + apply Forall_app. split; [done|]. constructor; [|done]. simpl.
      destruct Hcur as [?|[Hfit|Hone]]; [done| |].
      * left. eapply int_gt_mono; [apply length_trim|done].
      * right. by exists (AutoChunk.current st).
    + by right; right.
    + apply Forall_app. split; [done|]. constructor; [|done]. simpl.
      apply truthy_length, truthy_trim_solid. done.
    + by right.
  - split; [|by apply solid_append_r].
    constructor; simpl; try done.
    + apply andb_false_iff in Hpush as [Hfit|Hzero].
      * right; left. by rewrite length_append.
      * apply Nat.ltb_ge in Hzero.
        assert (AutoChunk.current st = "") as -> by (apply length_zero_empty; lia).
        by right; right.
    + right. by apply solid_append_r.
Qed.

Lemma chunking_loop sentences maxChars (l : list string) :
  forall st,
  chunking sentences maxChars st ->
  Forall (fun s => s ∈ sentences /\ solid s) l ->
  chunking sentences maxChars (fold_left (AutoChunk.step maxChars) l st)
  /\ (l <> [] -> solid (AutoChunk.current (fold_left (AutoChunk.step maxChars) l st))).
Proof.
  induction l as [|s l IH]; intros st Hst Hall; simpl; [by split|].
  apply Forall_cons in Hall as [[Hin Hs] Hall].
  destruct (chunking_step _ _ _ _ Hst Hin Hs) as [Hst' Hsolid'].
  destruct (IH _ Hst' Hall) as [Hfin Hlast]. split; [done|]. intros _.
  destruct l as [|s' l']; [done|]. by apply Hlast.
Qed.

Lemma chunking_start sentences maxChars :
  chunking sentences maxChars (AutoChunk.mk [] "" 1).
Proof. constructor; simpl; try done; by left. Qed.

Lemma sentences_of_nonempty (text : string) : sentences_of text <> [].
Proof. unfold sentences_of. by destruct (Regex.match_all _ _ _). Qed.

(** The end of the loop of [autoChunk] on a text that is not blank. *)
Lemma autoChunk_loop_end (text : string) (maxChars : float) :
  solid text ->
  let st := fold_left (AutoChunk.step maxChars) (sentences_of text) (AutoChunk.mk [] "" 1) in
  chunking (sentences_of text) maxChars st /\ solid (AutoChunk.current st).
Proof.
  intros Htext st.
  destruct (chunking_loop (sentences_of text) maxChars (sentences_of text) _
              (chunking_start _ _)) as [Hst Hsolid].
  { pose proof (sentences_solid text Htext) as Hs.
    apply Forall_forall. intros s Hin. split; [done|].
    by apply (proj1 (Forall_forall _ _) Hs). }
  split; [done|]. apply Hsolid, sentences_of_nonempty.
Qed.

(** The three ways [autoChunk] returns: the text within the limit, as one
    chunk; a blank text with a limit that [0] does not meet, as no chunk;
    a text that is not blank, as the chunks of the loop and a last one. *)
Lemma autoChunk_cases (content : string) (maxChars : float) :
  (JsNumber.int_le (String.length (trim content)) maxChars = true
   /\ autoChunk content maxChars = [Section_.mk "Segment 1" (trim content)])
  \/ (trim content = "" /\ JsNumber.int_le 0 maxChars = false
      /\ autoChunk content maxChars = [])
  \/ (JsNumber.int_le (String.length (trim content)) maxChars = false
      /\ solid (trim content)
      /\ exists st,
           st = fold_left (AutoChunk.step maxChars) (sentences_of (trim content))
                          (AutoChunk.mk [] "" 1)
           /\ chunking (sentences_of (trim content)) maxChars st
           /\ solid (AutoChunk.current st)
           /\ autoChunk content maxChars
              = AutoChunk.chunks st
                ++ [Section_.mk (AutoChunk.segment_title (AutoChunk.chunkNum st))
                                (trim (AutoChunk.current st))]).
Proof.
  rewrite autoChunk_unfold.
  destruct (JsNumber.int_le (String.length (trim content)) maxChars) eqn:Hshort;
    [by left|right].
  destruct (truthy (trim content)) eqn:Htext.
  - right. split; [done|].
    assert (Hsolid : solid (trim content)).
    { apply trim_keeps_solid, truthy_trim_solid, Htext. }
    split; [done|].
    destruct (autoChunk_loop_end (trim content) maxChars Hsolid) as [Hst Hcur].
    eexists. split; [reflexivity|]. split; [exact Hst|]. split; [exact Hcur|].
    unfold autoChunk_finish. by rewrite (proj2 (truthy_trim_solid _) Hcur).
  - left.
    assert (Hempty : trim content = "").
    { apply length_zero_empty. unfold truthy in Htext.
      apply negb_false_iff, Nat.eqb_eq in Htext. done. }
    rewrite Hempty in *. split; [done|]. split; [done|].
    replace (sentences_of "") with [""] by (vm_compute; reflexivity).
    unfold autoChunk_finish, AutoChunk.step. simpl.
    by rewrite andb_false_r.
Qed.

(** With [NaN] for a limit no length is over the limit, and the loop
    closes no chunk. *)
Lemma nan_loop (l : list string) :
  forall st,
  fold_left (AutoChunk.step nan) l st
  = AutoChunk.mk (AutoChunk.chunks st)
                 (AutoChunk.current st +:+ foldr String.append "" l)
                 (AutoChunk.chunkNum st).
Proof.
  assert (Hright : forall a : string, a +:+ "" = a).
  { induction a as [|c a IH]; [done|].
    change (String c (a +:+ "") = String c a). by rewrite IH. }
  assert (Hassoc : forall a b c : string, (a +:+ b) +:+ c = a +:+ (b +:+ c)).
  { induction a as [|x a IH]; intros b c; [done|].
    change (String x ((a +:+ b) +:+ c) = String x (a +:+ (b +:+ c))). by rewrite IH. }
  induction l as [|s l IH]; intros [chunks current num]; simpl.
  - by rewrite Hright.
  - rewrite IH. unfold AutoChunk.step. rewrite int_gt_nan. simpl. by rewrite Hassoc.
Qed.

(** X7: the chunks of [autoChunk] are titled "Segment 1", "Segment 2", ...
    in the order they are returned, whatever the limit. *)
Theorem autoChunk_titles_sequential (content : string) (maxChars : float) (i : nat) sec :
  autoChunk content maxChars !! i = Some sec ->
  Section_.title sec = "Segment " +:+ pretty (i + 1).
Proof.
  destruct (autoChunk_cases content maxChars)
    as [[_ ->]|[(_ & _ & ->)|(_ & _ & st & _ & [Hnum Htitles _ _ _ _] & _ & ->)]].
  - intros [-> <-]%list_lookup_singleton_Some. reflexivity.
  - done.
  - intros Hi%lookup_app_Some. destruct Hi as [Hi|[Hge Hi]]; [by apply Htitles|].
    apply list_lookup_singleton_Some in Hi as [Hi <-]. simpl.
    rewrite Hnum. unfold AutoChunk.segment_title. f_equal. f_equal. lia.
Qed.

Lemma autoChunk_titles_sequential_witness :
  exists sec,
    autoChunk "First sentence. Second sentence. Third sentence." 30%float !! 2 = Some sec
    /\ Section_.title sec = "Segment 3".
Proof.
  eexists. split; [vm_compute; reflexivity|].
  apply (autoChunk_titles_sequential
           "First sentence. Second sentence. Third sentence." 30%float 2).
  vm_compute. reflexivity.
Defined.

(** X8: [autoChunk] returns no chunk exactly when the content is blank
    and the limit is one that [0] does not meet (a negative number or
    NaN); for every other content and limit it returns at least one
    chunk.  A chunk with empty text occurs only for a blank content, and
    then it is the single chunk "Segment 1".  With NaN for a limit the
    loop never closes a chunk: a content that is not blank comes back as
    one chunk of all its sentence units. *)
Theorem autoChunk_empty_only_for_blank (content : string) (maxChars : float) :
  (autoChunk content maxChars = []
   <-> trim content = "" /\ JsNumber.int_le 0 maxChars = false)
  /\ (forall sec, sec ∈ autoChunk content maxChars -> Section_.text sec = "" ->
        trim content = "" /\ autoChunk content maxChars = [Section_.mk "Segment 1" ""])
  /\ autoChunk content nan
     = if truthy (trim content)
       then [Section_.mk "Segment 1"
               (trim (foldr String.append "" (sentences_of (trim content))))]
       else [].
Proof.
  split; [|split].
  - destruct (autoChunk_cases content maxChars)
      as [[Hshort ->]|[(Hblank & Hneg & ->)|(_ & Hsolid & st & _ & _ & _ & ->)]].
    + split; [done|]. intros [Hblank Hneg]. rewrite Hblank in Hshort. simpl in Hshort.
      congruence.
    + done.
    + split; [intros Hnil; by apply app_eq_nil in Hnil as [_ ?]|].
      intros [Hblank _]. rewrite Hblank in Hsolid.
      destruct Hsolid as (c & Hc & _). by apply elem_of_nil in Hc.
  - destruct (autoChunk_cases content maxChars)
      as [[_ ->]|[(_ & _ & ->)|(_ & _ & st & _ & [_ _ _ _ Htexts _] & Hcur & ->)]].
    + intros sec ->%list_elem_of_singleton Hempty. simpl in Hempty. by rewrite Hempty.
    + intros sec Hin. by apply elem_of_nil in Hin.
    + intros sec [Hin|Hin]%elem_of_app Hempty.
      * rewrite Forall_forall in Htexts. specialize (Htexts _ Hin).
        rewrite Hempty in Htexts. simpl in Htexts. lia.
      * apply list_elem_of_singleton in Hin as ->. simpl in Hempty.
        apply truthy_trim_solid, truthy_length in Hcur.
        rewrite Hempty in Hcur. simpl in Hcur. lia.
  - destruct (autoChunk_cases content nan)
      as [[Hshort _]|[(Hblank & _ & ->)|(_ & Hsolid & st & -> & _ & _ & ->)]].
    + by rewrite int_le_nan in Hshort.
    + by rewrite Hblank.
    + rewrite (solid_truthy _ Hsolid), nan_loop. reflexivity.
Qed.

Lemma autoChunk_empty_only_for_blank_sample :
  autoChunk "   " (-1)%float = []
  /\ autoChunk "   " 0%float = [Section_.mk "Segment 1" ""]
  /\ autoChunk "A. B. C." nan = [Section_.mk "Segment 1" "A. B. C."].
Proof. repeat split; vm_compute; reflexivity. Qed.



(* ================================================================== *)
(** * The loop of parseMarkdownHeadings                                *)
(* ================================================================== *)

Lemma parseMarkdownHeadings_unfold (content : string) :
  parseMarkdownHeadings content
  = filter (fun s => (0 <? String.length (Section_.text s))%nat)
      (Headings.push_section
         (fold_left Headings.step (split_lines content) (Headings.mk [] "" [] ""))).
Proof. reflexivity. Qed.

Lemma push_section_length (st : Headings.state) :
  length (Headings.push_section st) <= S (length (Headings.sections st)).
Proof.
  unfold Headings.push_section. destruct (_ || _); [|lia].
  rewrite length_app. simpl. lia.
Qed.

(** Each [##] line closes at most one section. *)
Lemma headings_loop_length (lines : list string) :
  forall st,
  length (Headings.sections (fold_left Headings.step lines st))
  <= length (Headings.sections st) + length (filter is_h2_line lines).
Proof.
  induction lines as [|line lines IH]; intros st; simpl; [lia|].
  pose proof (IH (Headings.step st line)) as IH'.
  assert (Hstep : length (Headings.sections (Headings.step st line))
                  <= length (Headings.sections st) + (if is_h2_line line then 1 else 0)).
  { unfold Headings.step, is_h2_line.
    destruct (Regex.capture Regex.h2 3 line); simpl.
    - pose proof (push_section_length st). lia.
    - destruct (Regex.capture Regex.h1 2 line); [destruct (_ && _)|]; simpl; lia. }
  rewrite filter_cons.
  destruct (decide (is_h2_line line)) as [H|H]; destruct (is_h2_line line);
    simpl in *; try done; lia.
Qed.

(** Without heading lines the loop closes no section and names none. *)
Lemma headings_loop_plain (lines : list string) :
  Forall plain_line lines ->
  forall current,
  exists current',
    fold_left Headings.step lines (Headings.mk [] "" current "")
    = Headings.mk [] "" current' "".
Proof.
  induction 1 as [|line lines [Hh2 Hh1] _ IH]; intros current; simpl; [by eexists|].
  unfold Headings.step at 2. rewrite Hh2, Hh1. simpl. apply IH.
Qed.

(** X10: [parseMarkdownHeadings] returns no section with an empty text,
    and at most one section more than the content has [##] heading lines. *)
Theorem parseMarkdownHeadings_bounded (content : string) :
  length (parseMarkdownHeadings content)
  <= S (length (filter is_h2_line (split_lines content)))
  /\ Forall (fun s => Section_.text s <> "") (parseMarkdownHeadings content).
Proof.
  rewrite parseMarkdownHeadings_unfold. split.
  - etrans; [apply length_filter|].
    etrans; [apply push_section_length|].
    pose proof (headings_loop_length (split_lines content) (Headings.mk [] "" [] "")).
    simpl in *. lia.
  - apply Forall_forall. intros s [Hpos _]%list_elem_of_filter Hempty.
    rewrite Hempty in Hpos. done.
Qed.

(** X11: for a content in which no line is a [#] or [##] heading,
    [chunkScript] in headings mode does exactly what it does in auto
    mode: the fallback to length-based chunking. *)
Theorem headings_mode_falls_back_without_heading_lines
    (sha256_hex : string -> string) (content : string) (options : ChunkOptions.t)
    (w : World) :
  Forall plain_line (split_lines content) ->
  chunkScript sha256_hex content (with_mode mode_headings options) w
  = chunkScript sha256_hex content (with_mode mode_auto options) w.
Proof.
  intros Hplain.
  assert (Htitles : existsb (fun s => negb (String.eqb (Section_.title s) "Preamble")
                                      && negb (String.eqb (Section_.title s) "Untitled Section"))
                            (parseMarkdownHeadings content) = false).
  { rewrite parseMarkdownHeadings_unfold.
    destruct (headings_loop_plain _ Hplain []) as (current & ->).
    unfold Headings.push_section. simpl.
    destruct (existsb _ current); simpl; [|done].
    rewrite filter_cons. by destruct (decide _). }
  unfold chunkScript. simpl. by rewrite Htitles.
Qed.

Lemma headings_mode_falls_back_without_heading_lines_witness :
  Forall plain_line (split_lines "One sentence here. Another sentence here.")
  /\ chunkScript (fun s => s) "One sentence here. Another sentence here."
       (with_mode mode_headings sample_chunk_options) empty_world
     = chunkScript (fun s => s) "One sentence here. Another sentence here."
         (with_mode mode_auto sample_chunk_options) empty_world.
Proof.
  assert (Hplain : Forall plain_line
                     (split_lines "One sentence here. Another sentence here."))
    by (repeat constructor).
  split; [exact Hplain|].
  exact (headings_mode_falls_back_without_heading_lines _ _ _ _ Hplain).
Defined.

(** X12: a template adds its sections around the script and nothing
    else: the segments with a template are an "Intro" section when the
    intro file exists and is not blank, then the segments of the script
    without template, then an "Outro" section likewise; a missing or blank
    template file is skipped without an error. *)
Theorem template_wraps_script (sha256_hex : string -> string) (content : string)
    (options : ChunkOptions.t) (t : TemplateName) (w : World) :
  exists plain wrapped,
    chunkScript sha256_hex content (with_template None options) w = (inr plain, w)
    /\ chunkScript sha256_hex content (with_template (Some t) options) w = (inr wrapped, w)
    /\ map raw_of wrapped
       = template_part w (ChunkOptions.templateDir options) (fst (TEMPLATE_MAP t)) "Intro"
         ++ map raw_of plain
         ++ template_part w (ChunkOptions.templateDir options) (snd (TEMPLATE_MAP t)) "Outro".
Proof.
  assert (Hpart : forall file title,
    templateSection (ChunkOptions.templateDir options) file title w
    = (inr (template_part w (ChunkOptions.templateDir options) file title), w)).
  { intros [f|] title; [|done]. unfold templateSection, loadTemplate, template_part.
    unfold mbind, M_bind, bind, mret, M_ret, ret, fileExists, readFile. simpl.
    destruct (files w !! Path.join (ChunkOptions.templateDir options) f) as [c|] eqn:Hf;
      simpl; [by rewrite Hf|done]. }
  assert (Hraw : forall voice lang (raw : list RawSection.t),
    map raw_of
      (imap (fun i section =>
               Segment.mk (i + 1) (RawSection.title section)
                 (slugify (RawSection.title section)) (RawSection.text section)
                 (RawSection.source section)
                 (contentHash sha256_hex [RawSection.text section; voice; lang])) raw)
    = raw).
  { intros voice lang raw. apply list_eq. intros i.
    rewrite list_lookup_fmap, list_lookup_imap.
    destruct (raw !! i) as [[? ? ?]|]; done. }
  unfold chunkScript. simpl.
  unfold mbind, M_bind, bind, mret, M_ret, ret. rewrite !Hpart.
  eexists _, _. split; [reflexivity|]. split; [reflexivity|].
  by rewrite !Hraw.
Qed.

(** X13: segments numbered 1, 2, ... in order, as [chunkScript] numbers
    them, have pairwise distinct cache keys and pairwise distinct audio
    file names: no two of them share a manifest entry or a file. *)
Theorem numbered_segments_never_collide (segments : list Segment.t) :
  (forall i s, segments !! i = Some s -> Segment.index s = i + 1) ->
  NoDup (map segmentCacheKey segments) /\ NoDup (map segmentFileName segments).
Proof.
  intros Hnum. split; [by apply numbered_keys_distinct|].
  apply NoDup_alt. intros i j k Hi Hj.
  apply list_lookup_fmap_Some in Hi as (si & -> & Hi).
  apply list_lookup_fmap_Some in Hj as (sj & Hk & Hj).
  unfold segmentFileName in Hk.
  apply dash_split_inj in Hk; [|apply zeroPad_dashless..].
  rewrite (Hnum _ _ Hi), (Hnum _ _ Hj) in Hk.
  apply zeroPad_inj in Hk; lia.
Qed.

Lemma numbered_segments_never_collide_witness :
  NoDup (map segmentFileName [seg_intro; seg_body; seg_outro]).
Proof.
  apply (numbered_segments_never_collide [seg_intro; seg_body; seg_outro]).
  intros [|[|[|i]]] s Hs; simplify_eq/=; done.
Defined.

(* ================================================================== *)
(** * Properties of the output builders                                *)
(* ================================================================== *)

Lemma timeline_loop (results : list RenderResult.t) :
  forall acc cursor,
  exists entries finish,
    fold_left timelineStep results (acc, cursor) = (acc ++ entries, finish)
    /\ contiguous cursor entries finish
    /\ Forall2 entry_of results entries
    /\ finish = fold_left (fun s r => (s + RenderResult.duration r)%float) results cursor.
Proof.
  induction results as [|r rest IH]; intros acc cursor; simpl.
  - exists [], cursor. rewrite app_nil_r. repeat split; constructor.
  - destruct (IH (acc ++ [TimelineEntry.mk (Segment.index (RenderResult.segment r))
                            (Segment.title (RenderResult.segment r)) cursor
                            (RenderResult.duration r)
                            (cursor + RenderResult.duration r)%float])
                 (cursor + RenderResult.duration r)%float)
      as (entries & finish & Hrun & Hcont & Hall & Hsum).
    eexists (_ :: entries), finish. rewrite Hrun, <- app_assoc.
    repeat split; try done.
    + by constructor.
    + constructor; [by repeat split|done].
Qed.

Lemma replace_char_removes (c : ascii) (by_ : string) (s : list ascii) :
  c ∉ JsString.chars by_ -> c ∉ replace_char c by_ s.
Proof.
  intros Hby. unfold replace_char. induction s as [|x s IH]; simpl; [apply not_elem_of_nil|].
  rewrite elem_of_app. intros [Hin|Hin]; [|done].
  destruct (Ascii.eqb x c) eqn:Hx; [done|].
  apply list_elem_of_singleton in Hin as ->. by rewrite Ascii.eqb_refl in Hx.
Qed.

Lemma replace_char_keeps_out (c d : ascii) (by_ : string) (s : list ascii) :
  d ∉ s -> d ∉ JsString.chars by_ -> d ∉ replace_char c by_ s.
Proof.
  intros Hs Hby. unfold replace_char. induction s as [|x s IH]; simpl; [apply not_elem_of_nil|].
  apply not_elem_of_cons in Hs as [Hdx Hs].
  rewrite elem_of_app. intros [Hin|Hin]; [|by apply IH].
  destruct (Ascii.eqb x c); [done|]. by apply list_elem_of_singleton in Hin.
Qed.

Lemma replace_char_id (c : ascii) (by_ : string) (s : list ascii) :
  c ∉ s -> replace_char c by_ s = s.
Proof.
  unfold replace_char. induction s as [|x s IH]; simpl; [done|].
  intros [Hcx Hs]%not_elem_of_cons.
  destruct (Ascii.eqb x c) eqn:Hx; [apply Ascii.eqb_eq in Hx; congruence|].
  simpl. by rewrite IH.
Qed.

Lemma drop_while_suffix {A} (p : A -> bool) (l : list A) :
  exists pre, l = pre ++ drop_while p l.
Proof.
  induction l as [|x l [pre IH]]; simpl; [by exists []|].
  destruct (p x); [|by exists []]. exists (x :: pre). simpl. by rewrite <- IH.
Qed.

(** Removing a run at the end leaves a prefix. *)
Lemma drop_end_prefix {A} (p : A -> bool) (l : list A) :
  exists suf, l = rev (drop_while p (rev l)) ++ suf.
Proof.
  destruct (drop_while_suffix p (rev l)) as [pre Hpre].
  exists (rev pre). rewrite <- rev_app_distr, <- Hpre. by rewrite rev_involutive.
Qed.

Lemma replace_runs_chars (cls : ascii -> bool) (by_ : list ascii) (s : list ascii) :
  forall in_run c, c ∈ replace_runs cls by_ in_run s -> c ∈ by_ \/ cls c = false.
Proof.
  induction s as [|x s IH]; intros in_run c; simpl; [by intros ?%elem_of_nil|].
  destruct (cls x) eqn:Hx.
  - intros [Hin|Hin]%elem_of_app; [|by eapply IH].
    destruct in_run; [by apply elem_of_nil in Hin|by left].
  - intros [->|Hin]%elem_of_cons; [by right|by eapply IH].
Qed.

Lemma dash_is_slug_char : slug_char "-"%char = true.
Proof. reflexivity. Qed.

Lemma pretty_N_char_slug (x : N) : slug_char (pretty_N_char x) = true.
Proof. unfold pretty_N_char. by repeat case_match. Qed.

Lemma pretty_N_go_slug (x : N) :
  forall s, Forall (fun c => slug_char c = true) (JsString.chars s) ->
            Forall (fun c => slug_char c = true) (JsString.chars (pretty_N_go x s)).
Proof.
  induction (N.lt_wf_0 x) as [x _ IH]; intros s Hs.
  destruct (decide (x = 0)%N) as [->|Hx]; [by rewrite pretty_N_go_0|].
  rewrite pretty_N_go_step by lia.
  apply IH; [apply N.div_lt; lia|].
  constructor; [apply pretty_N_char_slug|done].
Qed.

Lemma zeroPad_slug (n : nat) : Forall (fun c => slug_char c = true) (JsString.chars (zeroPad n)).
Proof.
  unfold zeroPad, JsString.padStart. rewrite chars_append. apply Forall_app. split.
  - rewrite chars_of_chars. apply Forall_forall.
    intros c Hc%elem_of_replicate. by destruct Hc as [-> _].
  - unfold pretty, pretty_nat, pretty, pretty_N.
    case_decide; [by repeat constructor|]. apply pretty_N_go_slug. constructor.
Qed.

Lemma slugify_chars (text : string) :
  Forall (fun c => slug_char c = true) (JsString.chars (slugify text)).
Proof.
  unfold slugify, JsString.slice0. rewrite chars_of_chars, chars_of_chars.
  apply Forall_forall. intros c Hc.
  apply subseteq_take in Hc.
  apply elem_of_rev, drop_while_sub, elem_of_rev, drop_while_sub in Hc.
  apply replace_runs_chars in Hc as [Hc|Hc].
  - apply list_elem_of_singleton in Hc as ->. reflexivity.
  - unfold slug_char. apply negb_false_iff in Hc. by rewrite Hc.
Qed.

(** The segments of [chunkScript]: numbered from 1, with slug and hash
    derived from title, text, voice and language. *)
Lemma chunkScript_shape sha256_hex content options w segments w' :
  chunkScript sha256_hex content options w = (inr segments, w') ->
  forall i s, segments !! i = Some s ->
    Segment.index s = i + 1
    /\ Segment.slug s = slugify (Segment.title s)
    /\ Segment.hash s
       = contentHash sha256_hex
           [Segment.text s; ChunkOptions.voiceId options;
            default "en" (ChunkOptions.language options)].
Proof.
  intros Hrun.
  assert (Hshape : forall raw i s,
    imap (fun i section =>
            Segment.mk (i + 1) (RawSection.title section)
              (slugify (RawSection.title section)) (RawSection.text section)
              (RawSection.source section)
              (contentHash sha256_hex
                 [RawSection.text section; ChunkOptions.voiceId options;
                  default "en" (ChunkOptions.language options)])) raw !! i = Some s ->
    Segment.index s = i + 1
    /\ Segment.slug s = slugify (Segment.title s)
    /\ Segment.hash s
       = contentHash sha256_hex
           [Segment.text s; ChunkOptions.voiceId options;
            default "en" (ChunkOptions.language options)]).
  { intros raw i s (section & _ & ->)%list_lookup_imap_Some. done. }
  unfold chunkScript in Hrun.
  destruct (ChunkOptions.template options) as [t|].
  - unfold mbind, M_bind, bind, mret, M_ret, ret in Hrun.
    destruct (templateSection_run (ChunkOptions.templateDir options) (fst (TEMPLATE_MAP t))
                "Intro" w) as (intro & Hi). rewrite Hi in Hrun.
    destruct (templateSection_run (ChunkOptions.templateDir options) (snd (TEMPLATE_MAP t))
                "Outro" w) as (outro & Ho). rewrite Ho in Hrun.
    simplify_eq. apply Hshape.
  - unfold mbind, M_bind, bind, mret, M_ret, ret in Hrun. simplify_eq. apply Hshape.
Qed.

(** X14: the timeline has one entry per result, in order, with the
    result's index, title and duration; the first entry starts at 0, each
    entry starts where the one before ended and ends its duration later,
    and the total is where the last entry ends. *)
Theorem timeline_is_contiguous (results : list RenderResult.t) :
  let t := buildTimeline results in
  Forall2 entry_of results (TimelineData.segments t)
  /\ contiguous 0%float (TimelineData.segments t) (TimelineData.total_duration_seconds t).
Proof.
  unfold buildTimeline.
  destruct (timeline_loop results [] 0%float) as (entries & finish & -> & Hcont & Hall & _).
  simpl. by split.
Qed.

(** X15: chapters and captions are produced exactly when every result has
    a duration greater than 0; a single result with duration 0, a negative
    one or NaN withholds both. *)
Theorem artifacts_need_positive_durations toString_general
    (results : list RenderResult.t) (segments : list Segment.t) :
  let t := buildTimeline results in
  (is_Some (buildChapters toString_general t)
   <-> Forall (fun r => JsNumber.gt0 (RenderResult.duration r) = true) results)
  /\ (is_Some (buildCaptionsSrt toString_general t segments)
      <-> Forall (fun r => JsNumber.gt0 (RenderResult.duration r) = true) results).
Proof.
  intros t.
  assert (Hd : TimelineData.has_durations t = true
               <-> Forall (fun r => JsNumber.gt0 (RenderResult.duration r) = true) results).
  { unfold t. rewrite buildTimeline_has_durations.
    rewrite forallb_forall, Forall_forall. by setoid_rewrite list_elem_of_In. }
  unfold buildChapters, buildCaptionsSrt.
  destruct (TimelineData.has_durations t); simpl; split; split; intros H;
    try (by eexists); try (by apply Hd);
    try (by destruct H); by apply Hd in H.
Qed.

(** X16: the manifest lists the results in order, each with its
    segment's hash and its file name and duration, and its total duration
    is the total of the timeline built from the same results. *)
Theorem manifest_agrees_with_timeline now title voiceId voiceName template language mock
    (results : list RenderResult.t) :
  let m := buildManifest now title voiceId voiceName template language mock results in
  ManifestData.total_duration_seconds m
  = TimelineData.total_duration_seconds (buildTimeline results)
  /\ Forall2 (fun r s =>
                ManifestSegment.text_hash s = Segment.hash (RenderResult.segment r)
                /\ ManifestSegment.file_path s = RenderResult.fileName r
                /\ ManifestSegment.duration_seconds s = RenderResult.duration r
                /\ ManifestSegment.index s = Segment.index (RenderResult.segment r))
             results (ManifestData.segments m).
Proof.
  simpl. split.
  - unfold buildTimeline.
    by destruct (timeline_loop results [] 0%float) as (entries & finish & -> & _ & _ & ->).
  - apply Forall2_fmap_r, Forall_Forall2_diag, Forall_forall. by intros.
Qed.

(** X17: the text that [escapeHtml] returns holds none of the characters
    less-than, greater-than and double quote, and a text without any of
    the four escaped characters is returned as it is. *)
Theorem escapeHtml_leaves_no_markup (text : string) :
  (lt_sign ∉ JsString.chars (escapeHtml text))
  /\ (gt_sign ∉ JsString.chars (escapeHtml text))
  /\ (dquote_char ∉ JsString.chars (escapeHtml text))
  /\ (amp ∉ JsString.chars text -> lt_sign ∉ JsString.chars text ->
      gt_sign ∉ JsString.chars text -> dquote_char ∉ JsString.chars text ->
      escapeHtml text = text).
Proof.
  unfold escapeHtml. rewrite chars_of_chars.
  assert (Hout : forall (c : ascii) (by_ : string),
            bool_decide (c ∈ JsString.chars by_) = false -> c ∉ JsString.chars by_).
  { intros c by_ H. by apply bool_decide_eq_false in H. }
  repeat split.
  - apply replace_char_keeps_out; [|by apply Hout].
    apply replace_char_keeps_out; [|by apply Hout].
    apply replace_char_removes. by apply Hout.
  - apply replace_char_keeps_out; [|by apply Hout].
    apply replace_char_removes. by apply Hout.
  - apply replace_char_removes. by apply Hout.
  - intros Ha Hl Hg Hq.
    rewrite (replace_char_id amp) by done. rewrite (replace_char_id lt_sign) by done.
    rewrite (replace_char_id gt_sign) by done. rewrite (replace_char_id dquote_char) by done.
    apply of_chars_chars.
Qed.

(** X18: a slug is made of lowercase letters, digits and dashes only, is
    at most 60 characters long and does not begin with a dash. *)
Theorem slugify_is_file_safe (text : string) :
  Forall (fun c => slug_char c = true) (JsString.chars (slugify text))
  /\ String.length (slugify text) <= 60
  /\ (forall c, head_char (slugify text) = Some c -> Char.isDash c = false).
Proof.
  split; [apply slugify_chars|]. split.
  - unfold slugify, JsString.slice0. rewrite length_of_chars, length_take. lia.
  - unfold slugify, JsString.slice0. rewrite chars_of_chars.
    set (s3 := replace_runs _ _ _ _).
    destruct (drop_end_prefix Char.isDash (drop_while Char.isDash s3)) as [suf Hsuf].
    set (s4 := rev (drop_while Char.isDash (rev (drop_while Char.isDash s3)))) in *.
    intros c Hc.
    destruct s4 as [|x s4'] eqn:Hs4; [done|].
    simpl in Hc. simplify_eq.
    apply (drop_while_head Char.isDash s3 c (s4' ++ suf)). by rewrite Hsuf.
Qed.

(** X19: the mux command always reads the video, then the audio, writes
    the output path last and passes [-shortest]; the [apad] filter is added
    for the policy [pad] only, and the policies [trim] and [shortest] give
    the very same arguments. *)
Theorem buildMuxArgs_by_policy (video audio output : string) :
  (forall policy, exists middle,
      buildMuxArgs (MuxOptions.mk video audio output policy)
      = ["-y"; "-i"; video; "-i"; audio] ++ middle ++ [output]
      /\ "-shortest" ∈ middle
      /\ ("apad" ∈ middle <-> policy = sync_pad))
  /\ buildMuxArgs (MuxOptions.mk video audio output sync_trim)
     = buildMuxArgs (MuxOptions.mk video audio output sync_shortest).
Proof.
  split; [|reflexivity].
  intros policy.
  exists (match policy with
          | sync_pad =>
              ["-c:v"; "copy"; "-c:a"; "aac"; "-b:a"; "192k"; "-map"; "0:v:0";
               "-map"; "1:a:0"; "-af"; "apad"; "-shortest"]
          | _ =>
              ["-c:v"; "copy"; "-c:a"; "aac"; "-b:a"; "192k"; "-map"; "0:v:0";
               "-map"; "1:a:0"; "-shortest"]
          end).
  destruct policy; (split; [reflexivity|]);
    (split; [apply (bool_decide_unpack _); by vm_compute|]);
    split; intros H;
    first [ reflexivity | discriminate
          | apply (bool_decide_unpack _); by vm_compute
          | exfalso; revert H; apply (bool_decide_unpack _); by vm_compute ].
Qed.

(** X20: every segment that [chunkScript] returns has the slug of its
    title and the content hash of its text, voice and language (or "en"),
    and its audio file name holds only lowercase letters, digits, dashes
    and dots. *)
Theorem chunkScript_file_names_safe sha256_hex content options w segments w' :
  chunkScript sha256_hex content options w = (inr segments, w') ->
  forall s, s ∈ segments ->
    Segment.slug s = slugify (Segment.title s)
    /\ Segment.hash s
       = contentHash sha256_hex
           [Segment.text s; ChunkOptions.voiceId options;
            default "en" (ChunkOptions.language options)]
    /\ Forall (fun c => file_name_char c = true) (JsString.chars (segmentFileName s)).
Proof.
  intros Hrun s [i Hi]%list_elem_of_lookup.
  destruct (chunkScript_shape _ _ _ _ _ _ Hrun i s Hi) as (_ & Hslug & Hhash).
  repeat split; try done.
  assert (Hup : forall l, Forall (fun c => slug_char c = true) l ->
                          Forall (fun c => file_name_char c = true) l).
  { intros l Hl. eapply Forall_impl; [exact Hl|].
    intros c Hc. unfold file_name_char. by rewrite Hc. }
  unfold segmentFileName. rewrite !chars_append.
  repeat apply Forall_app_2.
  - apply Hup, zeroPad_slug.
  - by repeat constructor.
  - apply Hup. rewrite Hslug. destruct (truthy _); apply slugify_chars.
  - by repeat constructor.
Qed.

Lemma chunkScript_file_names_safe_witness :
  exists segments,
    chunkScript (fun s => s) h1_only_document sample_chunk_options empty_world
    = (inr segments, empty_world)
    /\ Forall (fun s => Forall (fun c => file_name_char c = true)
                               (JsString.chars (segmentFileName s))) segments.
Proof.
  eexists.
  assert (Hrun : chunkScript (fun s => s) h1_only_document sample_chunk_options empty_world
                 = (inr _, empty_world)) by (vm_compute; reflexivity).
  split; [exact Hrun|].
  apply Forall_forall. intros s Hs.
  exact (proj2 (proj2 (chunkScript_file_names_safe _ _ _ _ _ _ Hrun s Hs))).
Defined.

Lemma autoChunk_nonempty (content : string) (maxChars : float) :
  truthy (trim content) = true \/ JsNumber.int_le 0 maxChars = true ->
  autoChunk content maxChars <> [].
Proof.
  intros Hok.
  destruct (autoChunk_cases content maxChars)
    as [[_ ->]|[(Hblank & Hneg & _)|(_ & _ & st & _ & _ & _ & ->)]].
  - done.
  - rewrite Hblank in Hok. destruct Hok as [Hok|Hok]; [done|congruence].
  - intros Hnil. by apply app_eq_nil in Hnil as [_ ?].
Qed.

(** X22: when [chunkScript] returns, it has changed nothing in the world
    and its segments are numbered 1, 2, ... in order; and it returns at
    least one segment whenever the content is not blank or the limit is
    one that [0] meets. *)
Theorem chunkScript_returns_numbered_segments (sha256_hex : string -> string)
    (content : string) (options : ChunkOptions.t) (w : World) segments w' :
  chunkScript sha256_hex content options w = (inr segments, w') ->
  w' = w
  /\ (forall i s, segments !! i = Some s -> Segment.index s = i + 1)
  /\ (truthy (trim content) = true
      \/ JsNumber.int_le 0 (ChunkOptions.maxChars options) = true ->
      exists first rest, segments = first :: rest /\ Segment.index first = 1).
Proof.
  intros Hrun.
  destruct (chunkScript_keys_distinct sha256_hex content options w)
    as (segments' & Hrun' & Hnum & _).
  rewrite Hrun in Hrun'. injection Hrun' as <- ->.
  split; [done|]. split; [exact Hnum|]. intros Hok.
  assert (Hne : segments <> []).
  { intros ->. revert Hrun. unfold chunkScript.
    set (raw := match ChunkOptions.mode options with
                | mode_headings => _ | mode_auto => _ end).
    assert (Hraw : raw <> []).
    { subst raw.
      pose proof (autoChunk_nonempty content (ChunkOptions.maxChars options) Hok) as Ha.
      assert (Hauto : map (with_source src_auto)
                        (autoChunk content (ChunkOptions.maxChars options)) <> []).
      { intros Hnil. by apply fmap_nil_inv in Hnil. }
      destruct (ChunkOptions.mode options); [|done].
      destruct (existsb _ _ && (0 <? length (parseMarkdownHeadings content))%nat) eqn:Hreal;
        [|done].
      apply andb_true_iff in Hreal as [_ Hlen%Nat.ltb_lt].
      intros Hnil. apply fmap_nil_inv in Hnil. rewrite Hnil in Hlen. simpl in Hlen. lia. }
    clearbody raw.
    assert (Himap : forall (f : nat -> RawSection.t -> Segment.t) l, l <> [] -> imap f l <> []).
    { intros f [|x l] Hl; [done|]. simpl. done. }
    destruct (ChunkOptions.template options) as [t|];
      unfold mbind, M_bind, bind, mret, M_ret, ret.
    - destruct (templateSection_run (ChunkOptions.templateDir options) (fst (TEMPLATE_MAP t))
                  "Intro" w) as (intro & ->).
      destruct (templateSection_run (ChunkOptions.templateDir options) (snd (TEMPLATE_MAP t))
                  "Outro" w) as (outro & ->).
      intros Heq. injection Heq as Heq. revert Heq. apply Himap.
      intros Hnil. apply app_eq_nil in Hnil as [_ Hnil].
      by apply app_eq_nil in Hnil as [? _].
    - intros Heq. injection Heq as Heq. revert Heq. by apply Himap. }
  destruct segments as [|first rest]; [done|].
  exists first, rest. split; [done|]. by apply (Hnum 0).
Qed.

Lemma chunkScript_returns_numbered_segments_witness :
  chunkScript (fun s => s) h1_only_document sample_chunk_options empty_world
  = (inr h1_only_segments, empty_world)
  /\ exists first rest, h1_only_segments = first :: rest /\ Segment.index first = 1.
Proof.
  assert (Hrun : chunkScript (fun s => s) h1_only_document sample_chunk_options
                   empty_world = (inr h1_only_segments, empty_world))
    by (vm_compute; reflexivity).
  split; [exact Hrun|].
  apply (chunkScript_returns_numbered_segments _ _ _ _ _ _ Hrun).
  left. vm_compute. reflexivity.
Defined.

(** X23: the audio file of a segment is never the manifest file of its
    output directory, whatever the index and the slug of the segment: a
    pass that writes audio does not write over [.cache.json]. *)
Theorem audio_file_is_not_the_manifest (options : RenderOptions.t) (s : Segment.t) :
  String.eqb (segmentFilePath options s) (cacheManifestPath (RenderOptions.outputDir options))
  = false.
Proof.
  apply String.eqb_neq, audio_path_not_manifest.
Qed.
